(** * MarqueeController: tiling and animation engine of marquee-canvas-ts

    A shallow embedding of [src/components/MarqueeController.ts] and the
    properties of its layout-and-animation cycle.

    Conventions of the model.
    - A JavaScript [number] is a value of [num]: an exact rational or one of
      the IEEE special values [+Infinity], [-Infinity], [NaN].  Rounding of
      binary64 arithmetic and the sign of zero are abstracted (every zero
      divides like [+0]).  The stated scenarios use small integers and the
      pixel ratios 1, 2 and 3/2, on which binary64 sums and products are
      exact; the quotients that binary64 rounds (1000 / 220, 497 / 1.5)
      are only rounded up to a count or compared with an integer, which
      the rounding does not change.
    - [canvas.width] and [canvas.height] are modelled on the values that
      the DOM attribute stores as assigned, the non-negative integers below
      2^31; what the attribute does with a negative or [NaN] value is not
      modelled.
    - Every arithmetic result is stored in lowest terms ([Qred]), so that
      positions are compared with Leibniz equality.
    - The DOM, the canvas 2D context and the frame scheduler are explicit
      state; what the browser decides (pixel ratio, container box, text
      metrics, whether a context can be obtained, whether a drawing call
      raises) is a [Platform] record passed to the operations.
    - An [async] method whose awaited values are already available runs to
      completion in the microtask checkpoint that follows the call, before
      any animation frame; it is modelled as one sequential step. *)

From Stdlib Require Import ZArith QArith Qround List String Bool Lia.
Import ListNotations.
Open Scope Z_scope.

Set Implicit Arguments.

(** ** JavaScript numbers *)

Inductive num : Type :=
| Fin (q : Q)
| PInf
| NInf
| NaN.

Definition of_Z (z : Z) : num := Fin (inject_Z z).
Definition of_nat (n : nat) : num := of_Z (Z.of_nat n).

Definition nadd (a b : num) : num :=
  match a, b with
  | NaN, _ | _, NaN => NaN
  | Fin p, Fin q => Fin (Qred (p + q))
  | PInf, NInf | NInf, PInf => NaN
  | PInf, _ | _, PInf => PInf
  | NInf, _ | _, NInf => NInf
  end.

Definition nsub (a b : num) : num :=
  match a, b with
  | NaN, _ | _, NaN => NaN
  | Fin p, Fin q => Fin (Qred (p - q))
  | PInf, PInf | NInf, NInf => NaN
  | PInf, _ | _, NInf => PInf
  | NInf, _ | _, PInf => NInf
  end.

Definition Qis_neg (q : Q) : bool :=
  match Qcompare q 0 with Lt => true | _ => false end.

Definition Qis_zero (q : Q) : bool :=
  match Qcompare q 0 with Eq => true | _ => false end.

Definition inf_of_sign (negative : bool) : num :=
  if negative then NInf else PInf.

Definition nmul (a b : num) : num :=
  match a, b with
  | NaN, _ | _, NaN => NaN
  | Fin p, Fin q => Fin (Qred (p * q))
  | Fin p, PInf | PInf, Fin p =>
      if Qis_zero p then NaN else inf_of_sign (Qis_neg p)
  | Fin p, NInf | NInf, Fin p =>
      if Qis_zero p then NaN else inf_of_sign (negb (Qis_neg p))
  | PInf, PInf | NInf, NInf => PInf
  | PInf, NInf | NInf, PInf => NInf
  end.

(** Division is the unguarded IEEE division: a non-zero finite number over
    zero is an infinity and zero over zero is [NaN]. *)
Definition ndiv (a b : num) : num :=
  match a, b with
  | NaN, _ | _, NaN => NaN
  | Fin p, Fin q =>
      if Qis_zero q then
        match Qcompare p 0 with
        | Eq => NaN
        | Gt => PInf
        | Lt => NInf
        end
      else Fin (Qred (p / q))
  | Fin _, PInf | Fin _, NInf => Fin 0
  | PInf, Fin q => inf_of_sign (Qis_neg q)
  | NInf, Fin q => inf_of_sign (negb (Qis_neg q))
  | PInf, PInf | PInf, NInf | NInf, PInf | NInf, NInf => NaN
  end.

(** [a < b]; every comparison with [NaN] is false. *)
Definition nlt (a b : num) : bool :=
  match a, b with
  | NaN, _ | _, NaN => false
  | Fin p, Fin q => match Qcompare p q with Lt => true | _ => false end
  | NInf, Fin _ | NInf, PInf | Fin _, PInf => true
  | _, _ => false
  end.

Definition ngt (a b : num) : bool := nlt b a.

(** [Math.ceil] *)
Definition ceil (a : num) : num :=
  match a with
  | Fin q => of_Z (Qceiling q)
  | other => other
  end.

(** ** Type definitions of the source *)

Record MarqueeOptions : Type := mkOptions {
  text : string;
  font : string;
  textColor : string;
  reverse : bool;
  paddingX : num;
  paddingY : num;
  speed : num;
  backgroundColor : option string
}.

(** [Partial<MarqueeOptions>]: [None] is an absent key. *)
Record PartialOptions : Type := mkPartial {
  p_text : option string;
  p_font : option string;
  p_textColor : option string;
  p_reverse : option bool;
  p_paddingX : option num;
  p_paddingY : option num;
  p_speed : option num;
  p_backgroundColor : option string
}.

(** The empty partial configuration [{}]. *)
Definition emptyPartial : PartialOptions :=
  mkPartial None None None None None None None None.

Definition over {A : Type} (new : option A) (old : A) : A :=
  match new with Some v => v | None => old end.

(** The object spread [{ ...base, ...partial }]. *)
Definition spread (base : MarqueeOptions) (p : PartialOptions) : MarqueeOptions :=
  {| text := over (p_text p) (text base);
     font := over (p_font p) (font base);
     textColor := over (p_textColor p) (textColor base);
     reverse := over (p_reverse p) (reverse base);
     paddingX := over (p_paddingX p) (paddingX base);
     paddingY := over (p_paddingY p) (paddingY base);
     speed := over (p_speed p) (speed base);
     backgroundColor :=
       match p_backgroundColor p with
       | Some v => Some v
       | None => backgroundColor base
       end |}.

Record TextInstance : Type := mkInstance {
  x : num;
  width : num;
  index : nat
}.

Definition set_x (inst : TextInstance) (v : num) : TextInstance :=
  {| x := v; width := width inst; index := index inst |}.

(** ** The page: elements, canvas, 2D context, frame scheduler *)

(** The part of an ancestor element that the engine reads. *)
Record Element : Type := mkElement {
  classMarqueeCanvas : bool;
  classBanner : bool;
  attrMarqueeCanvas : bool;
  clientWidth : num;
  paddingLeft : num;
  paddingRight : num;
  borderLeftWidth : num;
  borderRightWidth : num
}.

Inductive DrawOp : Type :=
| ClearRect (left top w h : num)
| FillText (content : string) (left top : num).

(** State of the [CanvasRenderingContext2D] of a canvas.  The transform is
    kept as its two scale factors (the program only resets and scales it);
    [ops] records the drawing calls issued, oldest first. *)
Record Context2D : Type := mkContext {
  ctx_font : string;
  fillStyle : string;
  textBaseline : string;
  textAlign : string;
  transform : num * num;
  ops : list DrawOp
}.

Record Canvas : Type := mkCanvas {
  canvas_width : num;
  canvas_height : num;
  style_width : string;
  style_height : num;
  paused : bool;
  ctx2d : Context2D
}.

Record TextMetrics : Type := mkMetrics {
  metrics_width : num;
  actualBoundingBoxAscent : num;
  actualBoundingBoxDescent : num
}.

(** What the browser decides. *)
Record Platform : Type := mkPlatform {
  getCurrentPixelRatio : num;
  ancestors : list Element;
  body : Element;
  documentWidth : num;
  measureText_height : string -> string -> num;
  getContext_succeeds : bool;
  ctx_measureText : string -> string -> TextMetrics;
  fillText_raises : string -> num -> num -> bool
}.

(** [requestAnimationFrame] hands out fresh non-zero handles and keeps the
    list of callbacks still to run. *)
Record Window : Type := mkWindow {
  lastHandle : nat;
  pending : list nat
}.

Definition requestAnimationFrame (w : Window) : nat * Window :=
  let h := S (lastHandle w) in
  (h, {| lastHandle := h; pending := pending w ++ [h] |}).

Definition cancelAnimationFrame (h : nat) (w : Window) : Window :=
  {| lastHandle := lastHandle w;
     pending := filter (fun k => negb (Nat.eqb k h)) (pending w) |}.

(** ** The controller *)

Inductive ContextRef : Type := TheContext.

Record MarqueeController : Type := mkController {
  canvas : Canvas;
  context : option ContextRef;
  options : MarqueeOptions;
  ratio : num;
  instances : list TextInstance;
  animationId : option nat;
  isInitialized : bool;
  container : option Element;
  textWidth : num;
  textHeight : num;
  effectiveTextWidth : num
}.

Definition set_canvas (v : Canvas) (c : MarqueeController) :=
  mkController v (context c) (options c) (ratio c) (instances c)
    (animationId c) (isInitialized c) (container c) (textWidth c)
    (textHeight c) (effectiveTextWidth c).
Definition set_context (v : option ContextRef) (c : MarqueeController) :=
  mkController (canvas c) v (options c) (ratio c) (instances c)
    (animationId c) (isInitialized c) (container c) (textWidth c)
    (textHeight c) (effectiveTextWidth c).
Definition set_options (v : MarqueeOptions) (c : MarqueeController) :=
  mkController (canvas c) (context c) v (ratio c) (instances c)
    (animationId c) (isInitialized c) (container c) (textWidth c)
    (textHeight c) (effectiveTextWidth c).
Definition set_ratio (v : num) (c : MarqueeController) :=
  mkController (canvas c) (context c) (options c) v (instances c)
    (animationId c) (isInitialized c) (container c) (textWidth c)
    (textHeight c) (effectiveTextWidth c).
Definition set_instances (v : list TextInstance) (c : MarqueeController) :=
  mkController (canvas c) (context c) (options c) (ratio c) v
    (animationId c) (isInitialized c) (container c) (textWidth c)
    (textHeight c) (effectiveTextWidth c).
Definition set_animationId (v : option nat) (c : MarqueeController) :=
  mkController (canvas c) (context c) (options c) (ratio c) (instances c)
    v (isInitialized c) (container c) (textWidth c)
    (textHeight c) (effectiveTextWidth c).
Definition set_isInitialized (v : bool) (c : MarqueeController) :=
  mkController (canvas c) (context c) (options c) (ratio c) (instances c)
    (animationId c) v (container c) (textWidth c)
    (textHeight c) (effectiveTextWidth c).
Definition set_container (v : option Element) (c : MarqueeController) :=
  mkController (canvas c) (context c) (options c) (ratio c) (instances c)
    (animationId c) (isInitialized c) v (textWidth c)
    (textHeight c) (effectiveTextWidth c).
Definition set_textWidth (v : num) (c : MarqueeController) :=
  mkController (canvas c) (context c) (options c) (ratio c) (instances c)
    (animationId c) (isInitialized c) (container c) v
    (textHeight c) (effectiveTextWidth c).
Definition set_textHeight (v : num) (c : MarqueeController) :=
  mkController (canvas c) (context c) (options c) (ratio c) (instances c)
    (animationId c) (isInitialized c) (container c) (textWidth c)
    v (effectiveTextWidth c).
Definition set_effectiveTextWidth (v : num) (c : MarqueeController) :=
  mkController (canvas c) (context c) (options c) (ratio c) (instances c)
    (animationId c) (isInitialized c) (container c) (textWidth c)
    (textHeight c) v.

(** The engine together with the window whose frame scheduler it uses. *)
Record World : Type := mkWorld {
  window : Window;
  marquee : MarqueeController
}.

(** ** Outcomes

    A call returns normally, raises with the state as mutated so far, or
    (for a loop that is run with fuel) has not finished. *)

Inductive Error : Type :=
| NoContext        (* 'Could not get 2D context from canvas' *)
| DrawingFailure.  (* raised by a drawing primitive of the platform *)

Inductive result (A : Type) : Type :=
| Done (a : A)
| Raised (e : Error) (a : A)
| OutOfFuel.
Arguments OutOfFuel {A}.

(** ** Configuration *)

Definition getDefaultOptions : MarqueeOptions :=
  {| text := "Default marquee text";
     font := "bold 5rem sans-serif";
     textColor := "rgba(202,39,39,0.7)";
     backgroundColor := Some "transparent"%string;
     reverse := false;
     paddingX := of_Z 20;
     paddingY := of_Z 36;
     speed := of_Z 2 |}.

Definition defaultContext : Context2D :=
  {| ctx_font := "10px sans-serif";
     fillStyle := "#000000";
     textBaseline := "alphabetic";
     textAlign := "start";
     transform := (of_Z 1, of_Z 1);
     ops := [] |}.

(** Field initialisers and constructor of the class. *)
Definition constructor (cv : Canvas) (opts : PartialOptions) : MarqueeController :=
  {| canvas := cv;
     context := None;
     options := spread getDefaultOptions opts;
     ratio := of_Z 1;
     instances := [];
     animationId := None;
     isInitialized := false;
     container := None;
     textWidth := of_Z 0;
     textHeight := of_Z 0;
     effectiveTextWidth := of_Z 0 |}.

(** ** Setup *)

Definition suitable (e : Element) : bool :=
  classMarqueeCanvas e || classBanner e || attrMarqueeCanvas e
  || ngt (clientWidth e) (of_Z 300).

(** Walks up from [canvas.parentElement]; [ancestors] stops before
    [document.body], which is the fallback. *)
Definition findContainer (P : Platform) : Element :=
  match find suitable (ancestors P) with
  | Some e => e
  | None => body P
  end.

Definition getContainerWidth (P : Platform) (c : MarqueeController) : num :=
  match container c with
  | None => documentWidth P
  | Some e =>
      let padding := nadd (paddingLeft e) (paddingRight e) in
      let border := nadd (borderLeftWidth e) (borderRightWidth e) in
      nsub (nsub (clientWidth e) padding) border
  end.

Definition measureTextHeight (P : Platform) (c : MarqueeController) : num :=
  nadd (ceil (measureText_height P (text (options c)) (font (options c))))
       (paddingY (options c)).

Definition setupFontMetrics (P : Platform) (c : MarqueeController)
  : MarqueeController :=
  match context c with
  | None => c
  | Some _ =>
      let cv := canvas c in
      let ctx :=
        {| ctx_font := font (options c);
           fillStyle := textColor (options c);
           textBaseline := "alphabetic";
           textAlign := "left";
           transform := transform (ctx2d cv);
           ops := ops (ctx2d cv) |} in
      let c1 :=
        set_canvas (mkCanvas (canvas_width cv) (canvas_height cv)
                      (style_width cv) (style_height cv) (paused cv) ctx) c in
      let metrics := ctx_measureText P (font (options c)) (text (options c)) in
      let c2 := set_textWidth (ceil (metrics_width metrics)) c1 in
      let c3 :=
        set_textHeight
          (ceil (nadd (actualBoundingBoxAscent metrics)
                      (actualBoundingBoxDescent metrics))) c2 in
      set_effectiveTextWidth (nadd (textWidth c3) (paddingX (options c3))) c3
  end.

(** [canvas.width] and [canvas.height] store the number assigned: the DOM
    keeps a non-negative integer below 2^31 as it is, and other values are
    outside the model. *)
Definition setupCanvas (P : Platform) (c : MarqueeController)
  : result MarqueeController :=
  let c1 := set_ratio (getCurrentPixelRatio P) c in
  let c2 := set_container (Some (findContainer P)) c1 in
  let logicalWidth := getContainerWidth P c2 in
  let logicalHeight := measureTextHeight P c2 in
  let cv := canvas c2 in
  let cv1 :=
    mkCanvas (ceil (nmul logicalWidth (ratio c2)))
             (ceil (nmul logicalHeight (ratio c2)))
             "100%" logicalHeight (paused cv) (ctx2d cv) in
  let c3 := set_canvas cv1 c2 in
  if getContext_succeeds P then
    let c4 := set_context (Some TheContext) c3 in
    let ctx := ctx2d cv1 in
    let ctx1 :=
      {| ctx_font := ctx_font ctx;
         fillStyle := fillStyle ctx;
         textBaseline := textBaseline ctx;
         textAlign := textAlign ctx;
         transform := (nmul (of_Z 1) (ratio c4), nmul (of_Z 1) (ratio c4));
         ops := ops ctx |} in
    let c5 :=
      set_canvas (mkCanvas (canvas_width cv1) (canvas_height cv1)
                    (style_width cv1) (style_height cv1) (paused cv1) ctx1) c4 in
    Done (setupFontMetrics P c5)
  else
    Raised NoContext (set_context None c3).

(** [this.canvas.width / this.ratio] *)
Definition canvasWidth (c : MarqueeController) : num :=
  ndiv (canvas_width (canvas c)) (ratio c).

Definition canvasHeight (c : MarqueeController) : num :=
  ndiv (canvas_height (canvas c)) (ratio c).

(** The instance pushed by iteration [i] of the build loop. *)
Definition seedInstance (c : MarqueeController) (i : nat) : TextInstance :=
  if reverse (options c) then
    {| x := nadd (canvasWidth c) (nmul (of_nat i) (effectiveTextWidth c));
       width := textWidth c;
       index := i |}
  else
    {| x := nsub (nmul (of_nat i) (effectiveTextWidth c))
                 (effectiveTextWidth c);
       width := textWidth c;
       index := i |}.

(** [for (let i = 0; i < instancesNeeded; i++) push]: one unit of fuel per
    evaluation of the loop test. *)
Fixpoint pushInstances (fuel : nat) (c : MarqueeController)
    (instancesNeeded : num) (i : nat) (acc : list TextInstance)
  : result (list TextInstance) :=
  match fuel with
  | O => OutOfFuel
  | S fuel' =>
      if nlt (of_nat i) instancesNeeded then
        pushInstances fuel' c instancesNeeded (S i) (acc ++ [seedInstance c i])
      else Done acc
  end.

Definition instancesNeeded (c : MarqueeController) : num :=
  nadd (ceil (ndiv (canvasWidth c) (effectiveTextWidth c))) (of_Z 4).

Definition setupTextInstances (fuel : nat) (c : MarqueeController)
  : result MarqueeController :=
  match pushInstances fuel c (instancesNeeded c) 0 [] with
  | Done l => Done (set_instances l c)
  | Raised e l => Raised e (set_instances l c)
  | OutOfFuel => OutOfFuel
  end.

(** ** Animation cycle *)

(** JavaScript truthiness of [number | null]. *)
Definition truthy (id : option nat) : bool :=
  match id with
  | Some (S _) => true
  | _ => false
  end.

Definition startAnimation (w : World) : World :=
  if negb (truthy (animationId (marquee w))) then
    let (h, win) := requestAnimationFrame (window w) in
    mkWorld win (set_animationId (Some h) (marquee w))
  else w.

Definition stopAnimation (w : World) : World :=
  match animationId (marquee w) with
  | Some (S k) =>
      mkWorld (cancelAnimationFrame (S k) (window w))
              (set_animationId None (marquee w))
  | _ => w
  end.

(** [this.instances.reduce((m, inst) => better(inst, m) ? inst : m, first)] *)
Definition reduceExtreme (better : num -> num -> bool)
    (arr : list TextInstance) (first : TextInstance) : TextInstance :=
  fold_left (fun m inst => if better (x inst) (x m) then inst else m) arr first.

(** One callback of the forward [forEach].  [before] are the elements
    already visited (already moved), [after] those still to visit; the
    [reduce] reads the whole array as it is at that moment. *)
Definition stepForward (c : MarqueeController)
    (before : list TextInstance) (inst : TextInstance)
    (after : list TextInstance) : TextInstance :=
  let moved := set_x inst (nadd (x inst) (speed (options c))) in
  if ngt (x moved) (canvasWidth c) then
    let arr := before ++ moved :: after in
    let leftmost := reduceExtreme nlt arr (hd moved arr) in
    set_x moved (nsub (x leftmost) (effectiveTextWidth c))
  else moved.

Definition stepReverse (c : MarqueeController)
    (before : list TextInstance) (inst : TextInstance)
    (after : list TextInstance) : TextInstance :=
  let moved := set_x inst (nsub (x inst) (speed (options c))) in
  if nlt (nadd (x moved) (textWidth c)) (of_Z 0) then
    let arr := before ++ moved :: after in
    let rightmost := reduceExtreme ngt arr (hd moved arr) in
    set_x moved (nadd (x rightmost) (effectiveTextWidth c))
  else moved.

(** [this.instances.forEach(callback)] with in-place mutation. *)
Fixpoint forEachInstance
    (callback : list TextInstance -> TextInstance -> list TextInstance
                -> TextInstance)
    (before todo : list TextInstance) : list TextInstance :=
  match todo with
  | [] => before
  | inst :: after =>
      forEachInstance callback (before ++ [callback before inst after]) after
  end.

Definition updatePositions (c : MarqueeController) : MarqueeController :=
  if reverse (options c) then
    set_instances (forEachInstance (stepReverse c) [] (instances c)) c
  else
    set_instances (forEachInstance (stepForward c) [] (instances c)) c.

(** The culling test of [draw]. *)
Definition isVisible (c : MarqueeController) (inst : TextInstance) : bool :=
  ngt (nadd (x inst) (textWidth c)) (of_Z 0) && nlt (x inst) (canvasWidth c).

Definition pushOp (op : DrawOp) (ctx : Context2D) : Context2D :=
  {| ctx_font := ctx_font ctx;
     fillStyle := fillStyle ctx;
     textBaseline := textBaseline ctx;
     textAlign := textAlign ctx;
     transform := transform ctx;
     ops := ops ctx ++ [op] |}.

Fixpoint fillInstances (P : Platform) (c : MarqueeController) (yPos : num)
    (l : list TextInstance) (ctx : Context2D) : result Context2D :=
  match l with
  | [] => Done ctx
  | inst :: rest =>
      if isVisible c inst then
        if fillText_raises P (text (options c)) (x inst) yPos then
          Raised DrawingFailure ctx
        else
          fillInstances P c yPos rest
            (pushOp (FillText (text (options c)) (x inst) yPos) ctx)
      else fillInstances P c yPos rest ctx
  end.

Definition set_ctx2d (ctx : Context2D) (c : MarqueeController)
  : MarqueeController :=
  let cv := canvas c in
  set_canvas (mkCanvas (canvas_width cv) (canvas_height cv)
                (style_width cv) (style_height cv) (paused cv) ctx) c.

Definition yPosition (c : MarqueeController) : num :=
  ndiv (nsub (canvasHeight c) (textHeight c)) (of_Z 2).

Definition draw (P : Platform) (c : MarqueeController)
  : result MarqueeController :=
  match context c with
  | None => Done c
  | Some _ =>
      let ctx := ctx2d (canvas c) in
      let cleared :=
        pushOp (ClearRect (of_Z 0) (of_Z 0) (canvasWidth c) (canvasHeight c))
               ctx in
      let styled :=
        {| ctx_font := font (options c);
           fillStyle := textColor (options c);
           textBaseline := "top";
           textAlign := textAlign cleared;
           transform := transform cleared;
           ops := ops cleared |} in
      match fillInstances P c (yPosition c) (instances c) styled with
      | Done ctx' => Done (set_ctx2d ctx' c)
      | Raised e ctx' => Raised e (set_ctx2d ctx' c)
      | OutOfFuel => OutOfFuel
      end
  end.

(** The frame handler.  It contains no exception handler: what [draw]
    raises leaves [animate]. *)
Definition animate (P : Platform) (w : World) : result World :=
  let (h, win) := requestAnimationFrame (window w) in
  let c := set_animationId (Some h) (marquee w) in
  if paused (canvas c) then Done (mkWorld win c)
  else
    match draw P (updatePositions c) with
    | Done c' => Done (mkWorld win c')
    | Raised e c' => Raised e (mkWorld win c')
    | OutOfFuel => OutOfFuel
    end.

(** The browser runs the callback of a handle that is still pending. *)
Definition runFrame (P : Platform) (h : nat) (w : World) : result World :=
  if existsb (Nat.eqb h) (pending (window w)) then
    animate P (mkWorld (cancelAnimationFrame h (window w)) (marquee w))
  else Done w.

(** ** Lifecycle *)

Definition initialize (P : Platform) (fuel : nat) (w : World) : result World :=
  match setupCanvas P (marquee w) with
  | Done c1 =>
      match setupTextInstances fuel c1 with
      | Done c2 =>
          let w1 := startAnimation (mkWorld (window w) c2) in
          Done (mkWorld (window w1) (set_isInitialized true (marquee w1)))
      | Raised e c2 => Raised e (mkWorld (window w) c2)
      | OutOfFuel => OutOfFuel
      end
  | Raised e c1 => Raised e (mkWorld (window w) c1)
  | OutOfFuel => OutOfFuel
  end.

Definition handleResize (P : Platform) (fuel : nat) (w : World) : result World :=
  if negb (isInitialized (marquee w)) then Done w
  else
    let w1 := stopAnimation w in
    match setupCanvas P (marquee w1) with
    | Done c1 =>
        match setupTextInstances fuel c1 with
        | Done c2 => Done (startAnimation (mkWorld (window w1) c2))
        | Raised e c2 => Raised e (mkWorld (window w1) c2)
        | OutOfFuel => OutOfFuel
        end
    | Raised e c1 => Raised e (mkWorld (window w1) c1)
    | OutOfFuel => OutOfFuel
    end.

(** [update]: the rejection of the re-setup is caught and logged
    ([.catch(console.error)]), so the call itself never raises. *)
Definition update (P : Platform) (fuel : nat) (opts : PartialOptions)
    (w : World) : result World :=
  let c := set_options (spread (options (marquee w)) opts) (marquee w) in
  if isInitialized c then
    match setupCanvas P c with
    | Done c1 =>
        match setupTextInstances fuel c1 with
        | Done c2 => Done (mkWorld (window w) c2)
        | Raised _ c2 => Done (mkWorld (window w) c2)
        | OutOfFuel => OutOfFuel
        end
    | Raised _ c1 => Done (mkWorld (window w) c1)
    | OutOfFuel => OutOfFuel
    end
  else Done (mkWorld (window w) c).

Definition destroy (w : World) : World :=
  let w1 := stopAnimation w in
  let c1 := set_instances [] (marquee w1) in
  let c2 := set_context None c1 in
  let c3 := set_isInitialized false c2 in
  mkWorld (window w1) (set_container None c3).

(** ** Definitions used by the statements *)

(** The flag [canvas.classList.contains('paused')] is toggled by the caller. *)
Definition setPaused (b : bool) (w : World) : World :=
  let cv := canvas (marquee w) in
  mkWorld (window w)
    (set_canvas (mkCanvas (canvas_width cv) (canvas_height cv)
                   (style_width cv) (style_height cv) b (ctx2d cv))
                (marquee w)).

(** [n] consecutive frame callbacks, stopping at the first that raises. *)
Fixpoint animateN (P : Platform) (n : nat) (w : World) : result World :=
  match n with
  | O => Done w
  | S k =>
      match animateN P k w with
      | Done w' => animate P w'
      | other => other
      end
  end.

(** The surface state derived by a setup. *)
Definition surfaceState (c : MarqueeController)
  : num * num * num * num * num * num * num :=
  (canvas_width (canvas c), canvas_height (canvas c), style_height (canvas c),
   ratio c, textWidth c, textHeight c, effectiveTextWidth c).

Definition blankCanvas : Canvas :=
  mkCanvas (of_Z 300) (of_Z 150) "" (of_Z 0) false defaultContext.

Definition plainElement (w : Z) : Element :=
  mkElement false false false (of_Z w) (of_Z 0) (of_Z 0) (of_Z 0) (of_Z 0).

(** A page at pixel ratio 1 whose sizing container is [containerWidth] wide
    (above the 300 px threshold), where the text measures [measured] px and
    [fillText] raises or not. *)
Definition scenarioPlatform (containerWidth measured : Z) (raises : bool)
  : Platform :=
  mkPlatform (of_Z 1) [plainElement containerWidth] (plainElement 1200)
    (of_Z 1200) (fun _ _ => of_Z 50) true
    (fun _ _ => mkMetrics (of_Z measured) (of_Z 30) (of_Z 10))
    (fun _ _ _ => raises).

Definition freshWorld (p : PartialOptions) : World :=
  mkWorld (mkWindow 0 []) (constructor blankCanvas p).

(** The state a call left behind, whatever its outcome. *)
Definition stateOf {A : Type} (r : result A) (otherwise : A) : A :=
  match r with
  | Done a => a
  | Raised _ a => a
  | OutOfFuel => otherwise
  end.

Definition initialized (P : Platform) (p : PartialOptions) : World :=
  stateOf (initialize P 64 (freshWorld p)) (freshWorld p).

(** A partial configuration that sets direction, horizontal padding and
    speed and omits the rest. *)
Definition scenarioOptions (rev : bool) (padX spd : Z) : PartialOptions :=
  mkPartial None None None (Some rev) (Some (of_Z padX)) None
            (Some (of_Z spd)) None.

(** A page whose sizing container carries the class [marquee-canvas] and is
    zero pixels wide, and where the text measures zero pixels. *)
Definition collapsedPlatform : Platform :=
  mkPlatform (of_Z 1)
    [mkElement true false false (of_Z 0) (of_Z 0) (of_Z 0) (of_Z 0) (of_Z 0)]
    (plainElement 1200) (of_Z 1200) (fun _ _ => of_Z 0) true
    (fun _ _ => mkMetrics (of_Z 0) (of_Z 0) (of_Z 0))
    (fun _ _ _ => false).

(** The page of [scenarioPlatform] at device pixel ratio [r], where
    [fillText] does not raise. *)
Definition ratioPlatform (r : Q) (containerWidth measured : Z) : Platform :=
  mkPlatform (Fin r) [plainElement containerWidth] (plainElement 1200)
    (of_Z 1200) (fun _ _ => of_Z 50) true
    (fun _ _ => mkMetrics (of_Z measured) (of_Z 30) (of_Z 10))
    (fun _ _ _ => false).

(** The engine after the surface setup of a new engine, before tiling. *)
Definition surfaceReady (P : Platform) (p : PartialOptions)
  : MarqueeController :=
  stateOf (setupCanvas P (constructor blankCanvas p))
          (constructor blankCanvas p).

(** The world [n] frame ticks after initialization. *)
Definition running (P : Platform) (p : PartialOptions) (n : nat) : World :=
  stateOf (animateN P n (initialized P p)) (initialized P p).

(** [frames P w w']: [w'] is reached from [w] by frame ticks (returning
    normally or not) and by the caller toggling the pause flag. *)
Inductive frames (P : Platform) : World -> World -> Prop :=
| frames_none : forall w, frames P w w
| frames_tick : forall w w1 w2,
    frames P w w1 ->
    (animate P w1 = Done w2 \/ exists e, animate P w1 = Raised e w2) ->
    frames P w w2
| frames_pause : forall w w1 b,
    frames P w w1 -> frames P w (setPaused b w1).

(** The engine of the boundary scenario, 243 ticks after initialization:
    its first instance has travelled from -220 to 995. *)
Definition boundaryEngine : MarqueeController :=
  marquee (running (scenarioPlatform 1000 200 false)
                   (scenarioOptions false 20 5) 243).

(** ** Definitions used by the further properties *)

Definition orElse {A : Type} (a b : option A) : option A :=
  match a with
  | Some v => Some v
  | None => b
  end.

(** The partial configuration that has the keys of both, [q] winning. *)
Definition mergePartial (p q : PartialOptions) : PartialOptions :=
  {| p_text := orElse (p_text q) (p_text p);
     p_font := orElse (p_font q) (p_font p);
     p_textColor := orElse (p_textColor q) (p_textColor p);
     p_reverse := orElse (p_reverse q) (p_reverse p);
     p_paddingX := orElse (p_paddingX q) (p_paddingX p);
     p_paddingY := orElse (p_paddingY q) (p_paddingY p);
     p_speed := orElse (p_speed q) (p_speed p);
     p_backgroundColor := orElse (p_backgroundColor q) (p_backgroundColor p) |}.

(** A page on which this engine holds the only scheduled frame. *)
Definition singleFrame (w : World) : Prop :=
  exists h, animationId (marquee w) = Some (S h)
            /\ pending (window w) = [S h].

(** A page on which nothing is scheduled and the engine holds no handle. *)
Definition idle (w : World) : Prop :=
  animationId (marquee w) = None /\ pending (window w) = [].

(** [lifecycle w w']: [w'] is reached from [w] by the browser running the
    frame the engine holds, by configuration updates and resizes that return
    normally, and by the caller toggling the pause flag; the platform may
    differ from step to step. *)
Inductive lifecycle : World -> World -> Prop :=
| lifecycle_none : forall w, lifecycle w w
| lifecycle_frame : forall (P : Platform) w w1 w2 h,
    lifecycle w w1 ->
    animationId (marquee w1) = Some h ->
    (runFrame P h w1 = Done w2 \/ exists e, runFrame P h w1 = Raised e w2) ->
    lifecycle w w2
| lifecycle_update : forall (P : Platform) fuel p w w1 w2,
    lifecycle w w1 -> update P fuel p w1 = Done w2 -> lifecycle w w2
| lifecycle_resize : forall (P : Platform) fuel w w1 w2,
    lifecycle w w1 -> handleResize P fuel w1 = Done w2 -> lifecycle w w2
| lifecycle_pause : forall w w1 b,
    lifecycle w w1 -> lifecycle w (setPaused b w1).

(** A run of the 1000 px scenario: initialization, the browser running the
    first frame, a configuration update to reverse motion at speed 5, then a
    resize after the container has shrunk to 800 px. *)
Definition afterFirstFrame : World :=
  stateOf (runFrame (scenarioPlatform 1000 200 false) 1
             (initialized (scenarioPlatform 1000 200 false) emptyPartial))
          (initialized (scenarioPlatform 1000 200 false) emptyPartial).

Definition afterReconfiguration : World :=
  stateOf (update (scenarioPlatform 1000 200 false) 64
             (scenarioOptions true 20 5) afterFirstFrame)
          afterFirstFrame.

Definition afterResize : World :=
  stateOf (handleResize (scenarioPlatform 800 200 false) 64
             afterReconfiguration)
          afterReconfiguration.

(** A page on which [canvas.getContext('2d')] returns [null]. *)
Definition contextlessPlatform : Platform :=
  mkPlatform (of_Z 1) [plainElement 1000] (plainElement 1200) (of_Z 1200)
    (fun _ _ => of_Z 50) false
    (fun _ _ => mkMetrics (of_Z 200) (of_Z 30) (of_Z 10))
    (fun _ _ _ => false).

(** The position an instance is moved to by one pass, before the recycle
    test. *)
Definition advance (c : MarqueeController) (v : num) : num :=
  if reverse (options c) then nsub v (speed (options c))
  else nadd v (speed (options c)).

(** The recycle test of [updatePositions] at a moved position. *)
Definition leavesView (c : MarqueeController) (v : num) : bool :=
  if reverse (options c) then nlt (nadd v (textWidth c)) (of_Z 0)
  else ngt v (canvasWidth c).

(** The [fillText] call that [draw] issues for an instance. *)
Definition fillTextOf (c : MarqueeController) (inst : TextInstance) : DrawOp :=
  FillText (text (options c)) (x inst) (yPosition c).

(** A forward engine on a 1000 px surface with two instances in view. *)
Definition twoInstances : MarqueeController :=
  set_instances
    [mkInstance (of_Z 0) (of_Z 200) 0; mkInstance (of_Z 220) (of_Z 200) 1]
    (surfaceReady (scenarioPlatform 1000 200 false)
                  (scenarioOptions false 20 5)).

(** A position that is an ordinary number. *)
Definition finite (inst : TextInstance) : Prop := exists q, x inst = Fin q.

(** ** The static constructor *)

(** [MarqueeController.init]: the rejection of [initialize] is logged
    ([.catch(console.error)]) and the controller is returned all the same. *)
Definition init (P : Platform) (fuel : nat) (cv : Canvas)
    (opts : PartialOptions) (win : Window) : result World :=
  match initialize P fuel (mkWorld win (constructor cv opts)) with
  | Done w => Done w
  | Raised _ w => Done w
  | OutOfFuel => OutOfFuel
  end.

(** ** Utilities *)

Section CachingLoader.
(** [createCachingLoader(fn)]: [J] are argument values, [V] results, [St]
    whatever [fn] reads and changes; [stringify] is [JSON.stringify] on the
    argument array. *)
Variables J V St : Type.
Variable fn : list J -> St -> V * St.
Variable stringify : list J -> string.

(** The [Map] of the loader, in insertion order, and the number of
    [console.warn] calls. *)
Record Loader : Type := mkLoader {
  cache : list (string * V);
  warnings : nat
}.

Definition cache_get (key : string) (l : list (string * V)) : option V :=
  match find (fun kv => String.eqb (fst kv) key) l with
  | Some kv => Some (snd kv)
  | None => None
  end.

Definition cache_delete (key : string) (l : list (string * V))
  : list (string * V) :=
  filter (fun kv => negb (String.eqb (fst kv) key)) l.

(** The [apply] trap of the proxy. *)
Definition load (args : list J) (st : Loader * St) : V * (Loader * St) :=
  let key := stringify args in
  match cache_get key (cache (fst st)) with
  | Some v => (v, st)
  | None =>
      let (v, s') := fn args (snd st) in
      (v, (mkLoader (cache (fst st) ++ [(key, v)]) (warnings (fst st)), s'))
  end.

Definition invalidate (args : list J) (ld : Loader) : Loader :=
  match args with
  | [] => mkLoader [] (warnings ld)
  | _ =>
      let key := stringify args in
      match cache_get key (cache ld) with
      | Some _ => mkLoader (cache_delete key (cache ld)) (warnings ld)
      | None => mkLoader (cache ld) (S (warnings ld))
      end
  end.
End CachingLoader.

Section Debounce.
(** [debounce(func, wait)]: [A] are the arguments of [func].  The timers
    that the returned function has set and that have not expired are
    [timers]; [invoked] records the calls of [func], oldest first.  The
    expiry of a timer after [wait] milliseconds is the event [expire]. *)
Variable A : Type.

Record Debounced : Type := mkDebounced {
  timeoutId : option nat;
  lastTimer : nat;
  timers : list (nat * A);
  invoked : list A
}.

Definition clearTimeout (id : option nat) (l : list (nat * A))
  : list (nat * A) :=
  match id with
  | Some k => filter (fun t => negb (Nat.eqb (fst t) k)) l
  | None => l
  end.

(** One call of the debounced function. *)
Definition debounced (args : A) (d : Debounced) : Debounced :=
  let id := S (lastTimer d) in
  {| timeoutId := Some id;
     lastTimer := id;
     timers := clearTimeout (timeoutId d) (timers d) ++ [(id, args)];
     invoked := invoked d |}.

(** The timer [id] expires: its callback calls [func]. *)
Definition expire (id : nat) (d : Debounced) : Debounced :=
  match find (fun t => Nat.eqb (fst t) id) (timers d) with
  | Some t =>
      {| timeoutId := timeoutId d;
         lastTimer := lastTimer d;
         timers := clearTimeout (Some id) (timers d);
         invoked := invoked d ++ [snd t] |}
  | None => d
  end.

Definition newDebounced : Debounced := mkDebounced None 0 [] [].
End Debounce.

Section CustomElement.
(** The custom element [MarqueeCanvas].  [parseInt] and
    [String.prototype.toUpperCase] are the built-ins. *)
Variable parseInt : string -> num.
Variable toUpperCase : string -> string.

(** [getAttribute]: [None] is [null]. *)
Definition Attributes : Type := string -> option string.

Definition hasAttribute (attrs : Attributes) (name : string) : bool :=
  match attrs name with
  | Some _ => true
  | None => false
  end.

(** [getAttribute(name) || fallback]: [null] and the empty string are
    falsy. *)
Definition orDefault (v : option string) (fallback : string) : string :=
  match v with
  | Some s => if String.eqb s "" then fallback else s
  | None => fallback
  end.

Definition getPhraseText (attrs : Attributes) : string :=
  let phrase := orDefault (attrs "phrase"%string) "" in
  let decorated :=
    if hasAttribute attrs "reverse"
    then ("*  " ++ phrase ++ "  ")%string
    else ("  " ++ phrase ++ "  *")%string in
  if hasAttribute attrs "uppercase" then toUpperCase decorated else decorated.

(** The object literal of [initializeController] and [updateController];
    the two differ in the fallback colour. *)
Definition controllerOptions (fallbackColor : string) (attrs : Attributes)
  : PartialOptions :=
  {| p_text := Some (getPhraseText attrs);
     p_font := Some (orDefault (attrs "font"%string) "bold 5rem sans-serif");
     p_textColor := Some (orDefault (attrs "color"%string) fallbackColor);
     p_reverse := Some (hasAttribute attrs "reverse");
     p_speed := Some (parseInt (orDefault (attrs "speed"%string) "2"));
     p_paddingX := Some (parseInt (orDefault (attrs "padding-x"%string) "0"));
     p_paddingY := Some (parseInt (orDefault (attrs "padding-y"%string) "36"));
     p_backgroundColor := None |}.

(** The element: its attributes, the canvas it created (until the
    controller takes it over) and its controller with the page it runs on. *)
Record MarqueeCanvas : Type := mkElementState {
  el_attributes : Attributes;
  el_canvas : option Canvas;
  el_controller : option MarqueeController;
  el_window : Window
}.

Definition initializeController (P : Platform) (fuel : nat)
    (el : MarqueeCanvas) : result MarqueeCanvas :=
  match el_canvas el with
  | None => Done el
  | Some cv =>
      match init P fuel cv (controllerOptions "#337baa" (el_attributes el))
                 (el_window el) with
      | Done w =>
          Done (mkElementState (el_attributes el) (el_canvas el)
                  (Some (marquee w)) (window w))
      | Raised e w =>
          Raised e (mkElementState (el_attributes el) (el_canvas el)
                      (Some (marquee w)) (window w))
      | OutOfFuel => OutOfFuel
      end
  end.

Definition updateController (P : Platform) (fuel : nat)
    (el : MarqueeCanvas) : result MarqueeCanvas :=
  match el_controller el with
  | None => Done el
  | Some c =>
      match update P fuel (controllerOptions "#f3bb0b" (el_attributes el))
                   (mkWorld (el_window el) c) with
      | Done w =>
          Done (mkElementState (el_attributes el) (el_canvas el)
                  (Some (marquee w)) (window w))
      | Raised e w =>
          Raised e (mkElementState (el_attributes el) (el_canvas el)
                      (Some (marquee w)) (window w))
      | OutOfFuel => OutOfFuel
      end
  end.

Definition observedAttributes : list string :=
  ["phrase"; "speed"; "reverse"; "color"; "font"; "padding-x";
   "padding-y"]%string.

(** [attributeChangedCallback]; the attribute already has its new value. *)
Definition attributeChangedCallback (P : Platform) (fuel : nat)
    (name : string) (oldValue newValue : option string)
    (el : MarqueeCanvas) : result MarqueeCanvas :=
  let same :=
    match oldValue, newValue with
    | Some a, Some b => String.eqb a b
    | None, None => true
    | _, _ => false
    end in
  match el_controller el with
  | None => Done el
  | Some _ =>
      if same then Done el
      else if existsb (String.eqb name) observedAttributes
           then updateController P fuel el
           else Done el
  end.

(** [cleanup], called by [disconnectedCallback]. *)
Definition cleanup (el : MarqueeCanvas) : MarqueeCanvas :=
  match el_controller el with
  | Some c =>
      mkElementState (el_attributes el) None None
        (window (destroy (mkWorld (el_window el) c)))
  | None => mkElementState (el_attributes el) None None (el_window el)
  end.
End CustomElement.

Section DebounceEvents.
Variable A : Type.

Inductive DebounceEvent : Type :=
| Called (args : A)
| Expired (id : nat).

Definition debounceStep (d : Debounced A) (ev : DebounceEvent)
  : Debounced A :=
  match ev with
  | Called args => debounced args d
  | Expired id => expire id d
  end.

Definition runDebounce (events : list DebounceEvent) (d : Debounced A)
  : Debounced A :=
  fold_left debounceStep events d.

(** At most one timer of a debounced function is running, and it is the
    one set last. *)
Definition oneTimer (d : Debounced A) : Prop :=
  timers d = []
  \/ exists a, timeoutId d = Some (lastTimer d)
               /\ timers d = [(lastTimer d, a)].
End DebounceEvents.

(** A connected element without attributes that has created its canvas and
    has no controller yet, on an idle page. *)
Definition bareElement : MarqueeCanvas :=
  mkElementState (fun _ => None) (Some blankCanvas) None (mkWindow 0 []).

(** * Properties *)

(** ** Configuration defaults *)

(** C2, as stated, fails: an engine constructed from the empty partial
    configuration does not have [paddingX = 0]. *)
Lemma constructor_paddingX_default_is_not_zero :
  ~ (forall (cv : Canvas) (p : PartialOptions),
        p_paddingX p = None ->
        paddingX (options (constructor cv p)) = of_Z 0).
Proof.
  intros H.
  specialize (H blankCanvas emptyPartial eq_refl).
  discriminate H.
Qed.

(** C2 (amended): a field omitted from the partial configuration given to
    the constructor takes the value of [getDefaultOptions]: [paddingX] is 20,
    [paddingY] is 36, [speed] is 2 and [reverse] is false; a field that is
    present is kept. *)
Theorem constructor_defaults :
  forall (cv : Canvas) (p : PartialOptions),
    (p_paddingX p = None -> paddingX (options (constructor cv p)) = of_Z 20)
    /\ (p_paddingY p = None -> paddingY (options (constructor cv p)) = of_Z 36)
    /\ (p_speed p = None -> speed (options (constructor cv p)) = of_Z 2)
    /\ (p_reverse p = None -> reverse (options (constructor cv p)) = false)
    /\ (forall v, p_paddingX p = Some v ->
                  paddingX (options (constructor cv p)) = v).
Proof.
  intros cv p; cbn [constructor options spread paddingX paddingY speed reverse].
  repeat split; intros; try match goal with H : _ = _ |- _ => rewrite H end;
    reflexivity.
Qed.

Lemma constructor_defaults_witness :
  paddingX (options (constructor blankCanvas emptyPartial)) = of_Z 20
  /\ paddingY (options (constructor blankCanvas emptyPartial)) = of_Z 36
  /\ speed (options (constructor blankCanvas emptyPartial)) = of_Z 2
  /\ reverse (options (constructor blankCanvas emptyPartial)) = false.
Proof.
  destruct (constructor_defaults blankCanvas emptyPartial)
    as (Hx & Hy & Hs & Hr & _).
  exact (conj (Hx eq_refl) (conj (Hy eq_refl) (conj (Hs eq_refl) (Hr eq_refl)))).
Defined.

(** ** Lifecycle operations on an engine that is not initialized *)

(** C9, as stated, fails: on an engine that is not initialized, [start]
    schedules an animation frame and [update] changes the configuration. *)
Lemma start_before_initialization_schedules_a_frame :
  ~ (forall w : World,
        isInitialized (marquee w) = false ->
        pending (window (startAnimation w)) = pending (window w)).
Proof.
  intros H.
  specialize (H (mkWorld (mkWindow 0 []) (constructor blankCanvas emptyPartial))
                eq_refl).
  discriminate H.
Qed.

Lemma eta_animationId (c : MarqueeController) :
  set_animationId (animationId c) c = c.
Proof. destruct c; reflexivity. Qed.

Lemma filter_subset {A : Type} (f : A -> bool) (l : list A) (a : A) :
  In a (filter f l) -> In a l.
Proof. intros H; apply filter_In in H; tauto. Qed.

Lemma destroy_idempotent (w : World) : destroy (destroy w) = destroy w.
Proof.
  destruct w as [win c]; destruct c as [cv cx o r ins [[|k]|] ini co tw th e];
    reflexivity.
Qed.

(** C9 (amended): on an engine that is not initialized (before
    initialization completes, or after [destroy]) [handleResize] returns
    normally and changes nothing; [update] returns normally and only merges
    the configuration: no setup, no re-tiling, no frame; [stopAnimation]
    schedules nothing and changes at most the animation handle;
    [startAnimation] carries no initialization guard: when no handle is held
    it schedules one frame; [destroy] may be repeated without effect. *)
Theorem lifecycle_when_not_initialized :
  forall (P : Platform) (fuel : nat) (w : World),
    isInitialized (marquee w) = false ->
    handleResize P fuel w = Done w
    /\ (forall opts,
           update P fuel opts w =
           Done (mkWorld (window w)
                   (set_options (spread (options (marquee w)) opts)
                                (marquee w))))
    /\ (forall h, In h (pending (window (stopAnimation w))) ->
                  In h (pending (window w)))
    /\ set_animationId (animationId (marquee w)) (marquee (stopAnimation w))
       = marquee w
    /\ (truthy (animationId (marquee w)) = false ->
        startAnimation w =
        mkWorld (mkWindow (S (lastHandle (window w)))
                          (pending (window w) ++ [S (lastHandle (window w))]))
                (set_animationId (Some (S (lastHandle (window w))))
                                 (marquee w)))
    /\ destroy (destroy w) = destroy w.
Proof.
  intros P fuel w Hini.
  split; [ unfold handleResize; rewrite Hini; reflexivity | ].
  split.
  { intros opts; unfold update.
    cbn [isInitialized set_options]; rewrite Hini; reflexivity. }
  split.
  { intros h; unfold stopAnimation.
    destruct (animationId (marquee w)) as [[|k]|]; cbn; auto.
    apply filter_subset. }
  split.
  { unfold stopAnimation.
    destruct (animationId (marquee w)) as [[|k]|] eqn:E; cbn [marquee];
      try (rewrite <- E; apply eta_animationId).
    destruct (marquee w); cbn in *; subst; reflexivity. }
  split.
  { intros Hid; unfold startAnimation; rewrite Hid; reflexivity. }
  apply destroy_idempotent.
Qed.

Lemma lifecycle_when_not_initialized_witness :
  handleResize
    (mkPlatform (of_Z 1) [] (mkElement false false false (of_Z 1000) (of_Z 0)
                               (of_Z 0) (of_Z 0) (of_Z 0))
       (of_Z 1000) (fun _ _ => of_Z 50) true
       (fun _ _ => mkMetrics (of_Z 200) (of_Z 30) (of_Z 10))
       (fun _ _ _ => false))
    10
    (destroy (mkWorld (mkWindow 0 []) (constructor blankCanvas emptyPartial)))
  = Done (destroy (mkWorld (mkWindow 0 [])
                     (constructor blankCanvas emptyPartial))).
Proof.
  apply (lifecycle_when_not_initialized
           (mkPlatform (of_Z 1) []
              (mkElement false false false (of_Z 1000) (of_Z 0)
                 (of_Z 0) (of_Z 0) (of_Z 0))
              (of_Z 1000) (fun _ _ => of_Z 50) true
              (fun _ _ => mkMetrics (of_Z 200) (of_Z 30) (of_Z 10))
              (fun _ _ _ => false))
           10
           (destroy (mkWorld (mkWindow 0 [])
                       (constructor blankCanvas emptyPartial)))).
  reflexivity.
Defined.

(** ** The frame handler *)

Lemma fillInstances_cases (P : Platform) (c : MarqueeController) (y : num)
    (l : list TextInstance) :
  forall ctx,
    (exists ctx', fillInstances P c y l ctx = Done ctx')
    \/ (exists ctx',
          fillInstances P c y l ctx = Raised DrawingFailure ctx'
          /\ exists inst,
               In inst l /\ isVisible c inst = true
               /\ fillText_raises P (text (options c)) (x inst) y = true).
Proof.
  induction l as [|inst rest IH]; intros ctx; cbn [fillInstances].
  - left; eauto.
  - destruct (isVisible c inst) eqn:Hv.
    + destruct (fillText_raises P (text (options c)) (x inst) y) eqn:Hr.
      * right; exists ctx; split; [reflexivity|].
        exists inst; cbn; auto.
      * destruct (IH (pushOp (FillText (text (options c)) (x inst) y) ctx))
          as [Hd | (ctx' & He & i & Hin & Hvi & Hri)]; [left; exact Hd|].
        right; exists ctx'; split; [exact He|]; exists i; cbn; auto.
    + destruct (IH ctx) as [Hd | (ctx' & He & i & Hin & Hvi & Hri)];
        [left; exact Hd|].
      right; exists ctx'; split; [exact He|]; exists i; cbn; auto.
Qed.

Lemma fillInstances_quiet (P : Platform) (c : MarqueeController) (y : num)
    (l : list TextInstance) :
  (forall t a b, fillText_raises P t a b = false) ->
  forall ctx, exists ctx', fillInstances P c y l ctx = Done ctx'.
Proof.
  intros Hq; induction l as [|inst rest IH]; intros ctx; cbn [fillInstances].
  - eauto.
  - rewrite Hq; destruct (isVisible c inst); apply IH.
Qed.

(** [draw] writes to the context only. *)
Lemma draw_cases (P : Platform) (c : MarqueeController) :
  exists c',
    (draw P c = Done c'
     \/ (draw P c = Raised DrawingFailure c'
         /\ exists inst,
              In inst (instances c) /\ isVisible c inst = true
              /\ fillText_raises P (text (options c)) (x inst) (yPosition c)
                 = true))
    /\ instances c' = instances c
    /\ animationId c' = animationId c.
Proof.
  unfold draw; destruct (context c).
  - match goal with
    | |- context [fillInstances P c ?y ?l ?ctx] =>
        destruct (fillInstances_cases P c y l ctx)
          as [(ctx' & Hd) | (ctx' & He & Hex)]
    end.
    + rewrite Hd; eexists; split; [left; reflexivity|split; reflexivity].
    + rewrite He; eexists; split; [right; split; [reflexivity|exact Hex]|].
      split; reflexivity.
  - exists c; split; [left; reflexivity|split; reflexivity].
Qed.

Lemma draw_quiet (P : Platform) (c : MarqueeController) :
  (forall t a b, fillText_raises P t a b = false) ->
  exists c', draw P c = Done c'.
Proof.
  intros Hq; unfold draw; destruct (context c); [|eauto].
  match goal with
  | |- context [fillInstances P c ?y ?l ?ctx] =>
      destruct (fillInstances_quiet P c y l Hq ctx) as (ctx' & Hd)
  end.
  rewrite Hd; eauto.
Qed.

Lemma updatePositions_animationId (v : option nat) (c : MarqueeController) :
  updatePositions (set_animationId v c) = set_animationId v (updatePositions c).
Proof. unfold updatePositions; cbn; destruct (reverse (options c)); reflexivity. Qed.

(** What one frame callback does to an engine that is not paused. *)
Lemma animate_running (P : Platform) (w : World) :
  paused (canvas (marquee w)) = false ->
  exists w',
    (animate P w = Done w'
     \/ (animate P w = Raised DrawingFailure w'
         /\ exists inst,
              In inst (instances (updatePositions (marquee w)))
              /\ isVisible (marquee w) inst = true
              /\ fillText_raises P (text (options (marquee w))) (x inst)
                   (yPosition (marquee w)) = true))
    /\ instances (marquee w') = instances (updatePositions (marquee w))
    /\ animationId (marquee w') = Some (S (lastHandle (window w)))
    /\ In (S (lastHandle (window w))) (pending (window w')).
Proof.
  intros Hp; unfold animate; cbn [requestAnimationFrame].
  cbn [canvas set_animationId]; rewrite Hp.
  rewrite updatePositions_animationId.
  destruct (draw_cases P (set_animationId (Some (S (lastHandle (window w))))
                            (updatePositions (marquee w))))
    as (c' & Hout & Hi & Ha).
  exists (mkWorld (mkWindow (S (lastHandle (window w)))
                     (pending (window w) ++ [S (lastHandle (window w))])) c').
  cbn [marquee window pending].
  split; [|split; [rewrite Hi; reflexivity|split;
                   [rewrite Ha; reflexivity|apply in_or_app; cbn; auto]]].
  destruct Hout as [Hd | (He & inst & Hin & Hv & Hr)].
  - left; rewrite Hd; reflexivity.
  - right; rewrite He; split; [reflexivity|].
    exists inst.
    unfold isVisible, yPosition, canvasWidth, canvasHeight, updatePositions
      in *.
    destruct (reverse (options (marquee w))); cbn in Hin, Hv, Hr |- *; auto.
Qed.

(** C3, as stated, fails: when the drawing primitive raises, the frame
    callback does not return normally. *)
Lemma animate_lets_a_drawing_failure_escape :
  ~ (forall (P : Platform) (w : World), exists w', animate P w = Done w').
Proof.
  intros H.
  destruct (H (scenarioPlatform 1000 200 true)
              (initialized (scenarioPlatform 1000 200 true) emptyPartial))
    as (w' & Hw).
  vm_compute in Hw; discriminate Hw.
Qed.

Lemma fillInstances_raises (P : Platform) (c : MarqueeController) (y : num) :
  forall (l : list TextInstance),
    (exists inst,
        In inst l /\ isVisible c inst = true
        /\ fillText_raises P (text (options c)) (x inst) y = true) ->
    forall ctx,
      exists ctx', fillInstances P c y l ctx = Raised DrawingFailure ctx'.
Proof.
  induction l as [|i rest IH]; intros (inst & Hin & Hv & Hr) ctx;
    [destruct Hin|].
  cbn [fillInstances].
  destruct (isVisible c i) eqn:Hvi.
  - destruct (fillText_raises P (text (options c)) (x i) y) eqn:Hri;
      [eauto|].
    apply IH; exists inst; destruct Hin as [<- | Hin]; [congruence|auto].
  - apply IH; exists inst; destruct Hin as [<- | Hin]; [congruence|auto].
Qed.

Lemma draw_raises (P : Platform) (c : MarqueeController) :
  context c = Some TheContext ->
  (exists inst,
      In inst (instances c) /\ isVisible c inst = true
      /\ fillText_raises P (text (options c)) (x inst) (yPosition c) = true) ->
  exists c',
    draw P c = Raised DrawingFailure c'
    /\ instances c' = instances c
    /\ animationId c' = animationId c.
Proof.
  intros Hc Hex; unfold draw; rewrite Hc.
  match goal with
  | |- context [fillInstances P c ?y ?l ?ctx] =>
      destruct (@fillInstances_raises P c y l Hex ctx) as (ctx' & Hf)
  end.
  rewrite Hf; eexists; split; [reflexivity|split; reflexivity].
Qed.

(** C3 (amended): a frame tick schedules the next frame before anything
    else, and it returns normally whenever the drawing calls of the platform
    do not raise.  The tick contains no exception handler: on an engine that
    is not paused and has a context, when the drawing call of an instance
    that is drawn raises, the tick raises that failure to its caller, with
    the positions of that tick already advanced; the frame scheduled at the
    start of the tick is still pending, so the cycle stays alive for the
    next tick. *)
Theorem animate_has_no_handler :
  forall (P : Platform) (w : World),
    (exists w',
        (animate P w = Done w' \/ animate P w = Raised DrawingFailure w')
        /\ animationId (marquee w') = Some (S (lastHandle (window w)))
        /\ In (S (lastHandle (window w))) (pending (window w'))
        /\ (animate P w = Raised DrawingFailure w' ->
            instances (marquee w') = instances (updatePositions (marquee w))))
    /\ ((forall t a b, fillText_raises P t a b = false) ->
        exists w', animate P w = Done w')
    /\ (paused (canvas (marquee w)) = false ->
        context (marquee w) = Some TheContext ->
        (exists inst,
            In inst (instances (updatePositions (marquee w)))
            /\ isVisible (marquee w) inst = true
            /\ fillText_raises P (text (options (marquee w))) (x inst)
                 (yPosition (marquee w)) = true) ->
        exists w',
          animate P w = Raised DrawingFailure w'
          /\ instances (marquee w') = instances (updatePositions (marquee w))
          /\ animationId (marquee w') = Some (S (lastHandle (window w)))
          /\ pending (window w')
             = pending (window w) ++ [S (lastHandle (window w))]).
Proof.
  intros P w; split; [|split].
  - destruct (paused (canvas (marquee w))) eqn:Hp.
    + unfold animate; cbn [requestAnimationFrame canvas set_animationId].
      rewrite Hp; eexists; split; [left; reflexivity|].
      cbn; split; [reflexivity|split; [apply in_or_app; cbn; auto|]].
      discriminate.
    + destruct (animate_running P w Hp) as (w' & Hout & Hi & Ha & Hin).
      exists w'; split; [destruct Hout as [Hd|[He _]]; auto|].
      auto.
  - intros Hq; unfold animate; cbn [requestAnimationFrame].
    match goal with |- context [if ?b then _ else _] => destruct b end;
      [eauto|].
    match goal with
    | |- context [draw P ?c] => destruct (draw_quiet P c Hq) as (c' & Hd)
    end.
    rewrite Hd; eauto.
  - intros Hp Hc (inst & Hin & Hv & Hr).
    unfold animate; cbn [requestAnimationFrame].
    cbn [canvas set_animationId]; rewrite Hp, updatePositions_animationId.
    destruct (@draw_raises P
                (set_animationId (Some (S (lastHandle (window w))))
                                 (updatePositions (marquee w))))
      as (c' & Hd & Hi & Ha).
    + unfold updatePositions; destruct (reverse (options (marquee w)));
        cbn; exact Hc.
    + exists inst.
      unfold isVisible, yPosition, canvasWidth, canvasHeight, updatePositions
        in *.
      destruct (reverse (options (marquee w))); cbn in Hin, Hv, Hr |- *; auto.
    + rewrite Hd; eexists; split; [reflexivity|].
      cbn [marquee window pending]; rewrite Hi, Ha; cbn; auto.
Qed.

Lemma animate_has_no_handler_witness :
  exists w',
    animate (scenarioPlatform 1000 200 true)
            (initialized (scenarioPlatform 1000 200 true) emptyPartial)
    = Raised DrawingFailure w'.
Proof.
  assert (Hex : exists inst,
             In inst (instances
                        (updatePositions
                           (marquee (initialized
                                       (scenarioPlatform 1000 200 true)
                                       emptyPartial))))
             /\ isVisible (marquee (initialized
                                      (scenarioPlatform 1000 200 true)
                                      emptyPartial)) inst = true
             /\ fillText_raises (scenarioPlatform 1000 200 true)
                  (text (options (marquee (initialized
                                             (scenarioPlatform 1000 200 true)
                                             emptyPartial))))
                  (x inst)
                  (yPosition (marquee (initialized
                                         (scenarioPlatform 1000 200 true)
                                         emptyPartial))) = true).
  { exists (mkInstance (of_Z 2) (of_Z 200) 1).
    split; [vm_compute; right; left; reflexivity|].
    split; vm_compute; reflexivity. }
  destruct (proj2 (proj2 (animate_has_no_handler
                            (scenarioPlatform 1000 200 true)
                            (initialized (scenarioPlatform 1000 200 true)
                                         emptyPartial)))
                  ltac:(vm_compute; reflexivity)
                  ltac:(vm_compute; reflexivity)
                  Hex)
    as (w' & H & _).
  exists w'; exact H.
Defined.

(** ** Pausing *)

Lemma animate_paused (P : Platform) (w : World) :
  paused (canvas (marquee w)) = true ->
  animate P w =
  Done (mkWorld (mkWindow (S (lastHandle (window w)))
                   (pending (window w) ++ [S (lastHandle (window w))]))
          (set_animationId (Some (S (lastHandle (window w)))) (marquee w))).
Proof.
  intros Hp; unfold animate; cbn [requestAnimationFrame canvas set_animationId].
  rewrite Hp; reflexivity.
Qed.

(** Paused frames change the animation handle and nothing else. *)
Lemma animateN_paused (P : Platform) (n : nat) (w : World) :
  paused (canvas (marquee w)) = true ->
  exists wn id,
    animateN P n w = Done wn
    /\ marquee wn = set_animationId id (marquee w)
    /\ ((0 < n)%nat ->
        id = Some (lastHandle (window wn))
        /\ In (lastHandle (window wn)) (pending (window wn))).
Proof.
  intros Hp; induction n as [|k IH]; cbn [animateN].
  - exists w, (animationId (marquee w)); split; [reflexivity|].
    split; [symmetry; apply eta_animationId|lia].
  - destruct IH as (wk & id & Hk & Hm & _); rewrite Hk.
    rewrite animate_paused by (rewrite Hm; exact Hp).
    eexists; exists (Some (S (lastHandle (window wk)))).
    split; [reflexivity|]; cbn [marquee window lastHandle pending].
    split; [rewrite Hm; destruct (marquee w); reflexivity|].
    intros _; split; [reflexivity|apply in_or_app; cbn; auto].
Qed.

Lemma updatePositions_resumed (id : option nat) (w wn : World) :
  marquee wn = set_animationId id (marquee w) ->
  instances (updatePositions (marquee (setPaused false wn)))
  = instances (updatePositions (marquee w)).
Proof.
  intros Hm; unfold setPaused; cbn [marquee]; rewrite Hm.
  unfold updatePositions; cbn.
  destruct (reverse (options (marquee w))); reflexivity.
Qed.

(** ** Arithmetic of [num] on integers *)

Local Open Scope Q_scope.

Lemma Qred_inject_Z (z : Z) : Qred (inject_Z z) = inject_Z z.
Proof.
  unfold Qred, inject_Z.
  generalize (Z.ggcd_gcd z 1), (Z.ggcd_correct_divisors z 1).
  destruct (Z.ggcd z 1) as (g, (aa, bb)); cbn [fst snd].
  intros Hg [Ha Hb]; rewrite Z.gcd_1_r in Hg; subst g.
  rewrite Z.mul_1_l in Ha, Hb; subst aa bb; reflexivity.
Qed.

Lemma nadd_of_Z (a b : Z) : nadd (of_Z a) (of_Z b) = of_Z (a + b).
Proof.
  unfold nadd, of_Z; f_equal.
  rewrite <- (Qred_inject_Z (a + b)%Z); apply Qred_complete.
  rewrite inject_Z_plus; reflexivity.
Qed.

Lemma nlt_of_Z (a b : Z) : nlt (of_Z a) (of_Z b) = (a <? b)%Z.
Proof.
  unfold nlt, of_Z, inject_Z, Qcompare; cbn [Qnum Qden].
  rewrite !Z.mul_1_r; unfold Z.ltb; destruct (a ?= b)%Z; reflexivity.
Qed.

Lemma Qis_zero_false (q : Q) : ~ q == 0 -> Qis_zero q = false.
Proof.
  intros H; unfold Qis_zero; destruct (q ?= 0) eqn:E; try reflexivity.
  apply Qeq_alt in E; contradiction.
Qed.

Lemma Qis_zero_true (q : Q) : q == 0 -> Qis_zero q = true.
Proof. intros H; unfold Qis_zero; apply Qeq_alt in H; rewrite H; reflexivity. Qed.

(** ** The build loop *)

Lemma pushInstances_of_Z (c : MarqueeController) (k : Z) :
  forall (fuel i : nat) (acc : list TextInstance),
    (Z.to_nat k - i < fuel)%nat ->
    pushInstances fuel c (of_Z k) i acc
    = Done (acc ++ map (seedInstance c) (seq i (Z.to_nat k - i))).
Proof.
  induction fuel as [|fuel IH]; intros i acc Hf; [lia|].
  cbn [pushInstances]; unfold of_nat; rewrite nlt_of_Z.
  destruct (Z.of_nat i <? k)%Z eqn:Hlt.
  - apply Z.ltb_lt in Hlt.
    rewrite IH by lia.
    replace (Z.to_nat k - i)%nat with (S (Z.to_nat k - S i)) by lia.
    cbn [seq map]; rewrite <- app_assoc; reflexivity.
  - apply Z.ltb_ge in Hlt.
    replace (Z.to_nat k - i)%nat with 0%nat by lia.
    cbn [seq map]; rewrite app_nil_r; reflexivity.
Qed.

Lemma pushInstances_PInf (c : MarqueeController) :
  forall (fuel i : nat) (acc : list TextInstance),
    pushInstances fuel c PInf i acc = OutOfFuel.
Proof.
  induction fuel as [|fuel IH]; intros i acc; [reflexivity|].
  cbn [pushInstances]; cbn [nlt of_nat of_Z]; apply IH.
Qed.

Lemma instancesNeeded_finite (c : MarqueeController) (cw e : Q) :
  canvasWidth c = Fin cw ->
  effectiveTextWidth c = Fin e ->
  ~ e == 0 ->
  instancesNeeded c = of_Z (Qceiling (cw / e) + 4).
Proof.
  intros Hw He Hnz; unfold instancesNeeded; rewrite Hw, He.
  unfold ndiv; rewrite (Qis_zero_false Hnz); cbn [ceil].
  rewrite (Qceiling_comp _ _ (Qred_correct (cw / e))).
  apply nadd_of_Z.
Qed.

Lemma instancesNeeded_unbounded (c : MarqueeController) (cw e : Q) :
  canvasWidth c = Fin cw ->
  effectiveTextWidth c = Fin e ->
  e == 0 -> 0 < cw ->
  instancesNeeded c = PInf.
Proof.
  intros Hw He Hz Hpos; unfold instancesNeeded; rewrite Hw, He.
  unfold ndiv; rewrite (Qis_zero_true Hz).
  apply Qgt_alt in Hpos; rewrite Hpos; reflexivity.
Qed.

Lemma instancesNeeded_undefined (c : MarqueeController) (cw e : Q) :
  canvasWidth c = Fin cw ->
  effectiveTextWidth c = Fin e ->
  e == 0 -> cw == 0 ->
  instancesNeeded c = NaN.
Proof.
  intros Hw He Hz Hcz; unfold instancesNeeded; rewrite Hw, He.
  unfold ndiv; rewrite (Qis_zero_true Hz).
  apply Qeq_alt in Hcz; rewrite Hcz; reflexivity.
Qed.

(** The tiling that the build loop produces for a finite count. *)
Lemma setupTextInstances_finite (c : MarqueeController) (cw e : Q) :
  canvasWidth c = Fin cw ->
  effectiveTextWidth c = Fin e ->
  ~ e == 0 ->
  forall fuel,
    (Z.to_nat (Qceiling (cw / e) + 4) < fuel)%nat ->
    setupTextInstances fuel c
    = Done (set_instances
              (map (seedInstance c)
                   (seq 0 (Z.to_nat (Qceiling (cw / e) + 4)))) c).
Proof.
  intros Hw He Hnz fuel Hf; unfold setupTextInstances.
  rewrite (instancesNeeded_finite c Hw He Hnz).
  rewrite pushInstances_of_Z by lia.
  rewrite Nat.sub_0_r; reflexivity.
Qed.

Lemma Qceiling_nonneg (q : Q) : 0 <= q -> (0 <= Qceiling q)%Z.
Proof.
  intros H; rewrite <- (Qceiling_Z 0); apply Qceiling_resp_le; exact H.
Qed.

Lemma Qdiv_nonneg (a b : Q) : 0 <= a -> 0 < b -> 0 <= a / b.
Proof.
  intros Ha Hb; unfold Qdiv.
  apply Qmult_le_0_compat; [exact Ha|].
  apply Qlt_le_weak, Qinv_lt_0_compat; exact Hb.
Qed.

Lemma nth_error_map_seq {A : Type} (f : nat -> A) :
  forall (n s i : nat),
    (i < n)%nat -> nth_error (map f (seq s n)) i = Some (f (s + i)%nat).
Proof.
  induction n as [|n IH]; intros s i Hi; [lia|].
  destruct i as [|i]; cbn [seq map nth_error].
  - rewrite Nat.add_0_r; reflexivity.
  - rewrite IH by lia; f_equal; f_equal; lia.
Qed.

Lemma ndiv_reduced (a b : num) (q : Q) : ndiv a b = Fin q -> Qred q = q.
Proof.
  destruct a as [p| | |], b as [r| | |]; unfold ndiv; try discriminate.
  - destruct (Qis_zero r).
    + destruct (p ?= 0); discriminate.
    + intros H; replace q with (Qred (p / r)) by congruence.
      apply Qred_complete, Qred_correct.
  - intros H; replace q with 0 by congruence; reflexivity.
  - intros H; replace q with 0 by congruence; reflexivity.
  - destruct (Qis_neg r); discriminate.
  - destruct (negb (Qis_neg r)); discriminate.
Qed.

Lemma inject_Z_succ (i : nat) :
  inject_Z (Z.of_nat (S i)) == inject_Z (Z.of_nat i) + 1.
Proof. rewrite Nat2Z.inj_succ; unfold Z.succ; rewrite inject_Z_plus; reflexivity. Qed.

(** ** Seed positions *)

Lemma seed_forward_closed_form (i : nat) (e : Q) :
  nsub (nmul (of_nat i) (Fin e)) (Fin e)
  = nmul (nsub (of_nat i) (of_Z 1)) (Fin e).
Proof.
  cbn [nsub nmul of_nat of_Z]; f_equal; apply Qred_complete.
  rewrite !Qred_correct; ring.
Qed.

Lemma seed_next (c : MarqueeController) (cw e : Q) (i : nat) :
  canvasWidth c = Fin cw ->
  effectiveTextWidth c = Fin e ->
  x (seedInstance c (S i)) = nadd (x (seedInstance c i)) (effectiveTextWidth c).
Proof.
  intros Hw He; unfold seedInstance.
  destruct (reverse (options c)); cbn [x]; rewrite ?Hw, He;
    cbn [nadd nsub nmul of_nat of_Z]; f_equal; apply Qred_complete;
    rewrite !Qred_correct, inject_Z_succ; ring.
Qed.

Lemma seed_first (c : MarqueeController) (cw e : Q) :
  canvasWidth c = Fin cw ->
  effectiveTextWidth c = Fin e ->
  x (seedInstance c 0)
  = if reverse (options c) then canvasWidth c else nsub (of_Z 0) (Fin e).
Proof.
  intros Hw He; unfold seedInstance.
  destruct (reverse (options c)); cbn [x]; rewrite ?Hw, He;
    cbn [nadd nsub nmul of_nat of_Z].
  - f_equal; rewrite <- (ndiv_reduced _ _ Hw) at 2; apply Qred_complete.
    rewrite Qred_correct; cbn [Z.of_nat]; ring.
  - apply f_equal, Qred_complete; rewrite Qred_correct; cbn [Z.of_nat]; ring.
Qed.

(** C7, as stated, fails: in reverse motion the first instance is seeded
    at the width the engine reads back from the canvas, which is not the
    content width of the container.  At pixel ratio 3/2 a container 331 px
    wide gives a canvas 497 pixels wide, and the first instance starts at
    497 / (3/2), a third of a pixel to the right of 331. *)
Lemma reverse_seed_is_not_the_content_width :
  ~ (forall (P : Platform) (fuel : nat) (w0 w1 : World) (first : TextInstance),
        initialize P fuel w0 = Done w1 ->
        reverse (options (marquee w1)) = true ->
        nth_error (instances (marquee w1)) 0 = Some first ->
        x first = getContainerWidth P (marquee w1)).
Proof.
  intros H.
  specialize (H (ratioPlatform (3 # 2) 331 311) 10%nat
                (freshWorld (scenarioOptions true 20 2))
                (initialized (ratioPlatform (3 # 2) 331 311)
                             (scenarioOptions true 20 2))
                (mkInstance (Fin (994 # 3)) (of_Z 311) 0)
                ltac:(vm_compute; reflexivity)
                ltac:(vm_compute; reflexivity)
                ltac:(vm_compute; reflexivity)).
  vm_compute in H; discriminate H.
Qed.

(** C7 (amended): the initial tiling terminates and builds
    [ceil(W / effectiveTileWidth) + 4] instances, at least four on a
    surface of non-negative width, where [W] is [canvas.width / ratio], the
    right boundary as the engine reads it back from the canvas (not the
    content width of the container).  With [reverse] set, instance [i] is
    seeded at [W + i * effectiveTileWidth], so that the first instance
    starts exactly at that boundary; otherwise it is seeded at
    [(i - 1) * effectiveTileWidth], so that the first instance starts one
    tile width left of the origin; in both directions every instance lies
    one effective tile width to the right of its predecessor.  At pixel
    ratio 2, container width 1000 and tile width 220 the first three
    instances start at 1000, 1220, 1440 in reverse motion and at -220, 0,
    220 in forward motion. *)
Theorem initial_tiling_positions :
  (forall (c : MarqueeController) (cw e : Q),
      canvasWidth c = Fin cw ->
      effectiveTextWidth c = Fin e ->
      0 < e ->
      forall fuel,
        (Z.to_nat (Qceiling (cw / e) + 4) < fuel)%nat ->
        exists c',
          setupTextInstances fuel c = Done c'
          /\ List.length (instances c') = Z.to_nat (Qceiling (cw / e) + 4)
          /\ (0 <= cw -> (4 <= List.length (instances c'))%nat)
          /\ forall i,
              (i < List.length (instances c'))%nat ->
              exists inst,
                nth_error (instances c') i = Some inst
                /\ x inst
                   = (if reverse (options c)
                      then nadd (Fin cw) (nmul (of_nat i) (Fin e))
                      else nmul (nsub (of_nat i) (of_Z 1)) (Fin e))
                /\ (i = 0%nat ->
                    x inst = if reverse (options c) then Fin cw
                             else nsub (of_Z 0) (Fin e))
                /\ (forall next,
                       nth_error (instances c') (S i) = Some next ->
                       x next = nadd (x inst) (Fin e)))
  /\ (exists w,
         initialize (ratioPlatform 2 1000 200) 10
                    (freshWorld (scenarioOptions true 20 2)) = Done w
         /\ getContainerWidth (ratioPlatform 2 1000 200) (marquee w)
            = of_Z 1000
         /\ canvas_width (canvas (marquee w)) = of_Z 2000
         /\ canvasWidth (marquee w) = of_Z 1000
         /\ effectiveTextWidth (marquee w) = of_Z 220
         /\ map x (firstn 3 (instances (marquee w)))
            = [of_Z 1000; of_Z 1220; of_Z 1440])
  /\ (exists w,
         initialize (ratioPlatform 2 1000 200) 10
                    (freshWorld (scenarioOptions false 20 2)) = Done w
         /\ getContainerWidth (ratioPlatform 2 1000 200) (marquee w)
            = of_Z 1000
         /\ canvas_width (canvas (marquee w)) = of_Z 2000
         /\ canvasWidth (marquee w) = of_Z 1000
         /\ effectiveTextWidth (marquee w) = of_Z 220
         /\ map x (firstn 3 (instances (marquee w)))
            = [of_Z (-220); of_Z 0; of_Z 220]).
Proof.
  split; [|split].
  - intros c cw e Hw He Hpos fuel Hf.
    assert (Hnz : ~ e == 0) by (intros Hz; rewrite Hz in Hpos; discriminate).
    rewrite (setupTextInstances_finite c Hw He Hnz Hf).
    eexists; split; [reflexivity|].
    cbn [instances set_instances]; rewrite length_map, length_seq.
    split; [reflexivity|].
    split.
    { intros Hcw; pose proof (Qceiling_nonneg (Qdiv_nonneg Hcw Hpos)); lia. }
    intros i Hi; exists (seedInstance c i).
    split; [rewrite nth_error_map_seq by exact Hi; reflexivity|].
    split.
    { unfold seedInstance; destruct (reverse (options c)); cbn [x];
        rewrite ?Hw, He; [reflexivity|].
      apply seed_forward_closed_form. }
    split.
    { intros ->; rewrite (seed_first c Hw He), Hw; reflexivity. }
    intros next Hnext.
    destruct (Nat.lt_ge_cases (S i) (Z.to_nat (Qceiling (cw / e) + 4)))
      as [Hlt | Hge].
    + rewrite nth_error_map_seq in Hnext by exact Hlt.
      injection Hnext as <-; rewrite <- He; apply (seed_next c i Hw He).
    + assert (Hsome : nth_error
                        (map (seedInstance c)
                             (seq 0 (Z.to_nat (Qceiling (cw / e) + 4)))) (S i)
                      <> None) by (rewrite Hnext; discriminate).
      apply nth_error_Some in Hsome.
      rewrite length_map, length_seq in Hsome; lia.
  - eexists; split; [vm_compute; reflexivity|].
    repeat (split; [vm_compute; reflexivity|]); vm_compute; reflexivity.
  - eexists; split; [vm_compute; reflexivity|].
    repeat (split; [vm_compute; reflexivity|]); vm_compute; reflexivity.
Qed.

Lemma initial_tiling_positions_witness :
  exists c',
    setupTextInstances 10
      (surfaceReady (ratioPlatform 2 1000 200)
                    (scenarioOptions true 20 2)) = Done c'
    /\ List.length (instances c') = Z.to_nat (Qceiling (1000 / 220) + 4)
    /\ exists first,
         nth_error (instances c') 0 = Some first /\ x first = Fin 1000.
Proof.
  destruct (proj1 initial_tiling_positions
              (surfaceReady (ratioPlatform 2 1000 200)
                            (scenarioOptions true 20 2))
              1000 220
              ltac:(vm_compute; reflexivity)
              ltac:(vm_compute; reflexivity)
              eq_refl
              10%nat ltac:(vm_compute; lia))
    as (c' & Hc & Hlen & Hfour & Hpos).
  exists c'; split; [exact Hc|split; [exact Hlen|]].
  destruct (Hpos 0%nat ltac:(pose proof (Hfour ltac:(discriminate)); lia))
    as (first & Hn & _ & Hx & _).
  exists first; split; [exact Hn|exact (Hx eq_refl)].
Defined.

(** ** Termination of the rebuild *)

Lemma setupFontMetrics_canvasWidth (P : Platform) (c : MarqueeController) :
  canvasWidth (setupFontMetrics P c) = canvasWidth c.
Proof. unfold setupFontMetrics; destruct (context c); reflexivity. Qed.

Lemma setupFontMetrics_effectiveTextWidth (P : Platform)
    (c : MarqueeController) :
  context c = Some TheContext ->
  effectiveTextWidth (setupFontMetrics P c)
  = nadd (ceil (metrics_width
                  (ctx_measureText P (font (options c)) (text (options c)))))
         (paddingX (options c)).
Proof. intros H; unfold setupFontMetrics; rewrite H; reflexivity. Qed.

(** C10, as stated, fails: with text of width 0 and paddingX 0 the build
    loop terminates when the surface itself is zero pixels wide, because the
    quotient is then [NaN] and the loop test is false at once. *)
Lemma rebuild_terminates_on_collapsed_surface :
  ~ (forall (P : Platform) (c : MarqueeController) (fuel : nat),
        context c = Some TheContext ->
        metrics_width
          (ctx_measureText P (font (options c)) (text (options c))) = of_Z 0 ->
        paddingX (options c) = of_Z 0 ->
        setupTextInstances fuel (setupFontMetrics P c) = OutOfFuel).
Proof.
  intros H.
  specialize (H collapsedPlatform
                (surfaceReady collapsedPlatform (scenarioOptions false 0 2))
                1%nat eq_refl eq_refl eq_refl).
  vm_compute in H; discriminate H.
Qed.

(** C10 (amended): the count [ceil(canvasWidth / effectiveTextWidth) + 4]
    is computed with an unguarded division.  When the effective tile width
    is strictly positive the rebuild terminates with that many instances.
    When the text measures width 0 and paddingX is 0 the effective tile
    width is 0: on a surface of positive width the count is [+Infinity] and
    the build loop does not terminate, whatever the fuel; on a surface of
    width 0 the quotient is [NaN] and the loop ends at once with an empty
    collection. *)
Theorem rebuild_termination :
  forall (P : Platform) (c : MarqueeController) (cw : Q),
    context c = Some TheContext ->
    canvasWidth c = Fin cw ->
    (forall e,
        effectiveTextWidth (setupFontMetrics P c) = Fin e -> 0 < e ->
        exists fuel c',
          setupTextInstances fuel (setupFontMetrics P c) = Done c'
          /\ List.length (instances c') = Z.to_nat (Qceiling (cw / e) + 4))
    /\ (metrics_width
          (ctx_measureText P (font (options c)) (text (options c))) = of_Z 0 ->
        paddingX (options c) = of_Z 0 ->
        effectiveTextWidth (setupFontMetrics P c) = of_Z 0
        /\ (0 < cw ->
            instancesNeeded (setupFontMetrics P c) = PInf
            /\ forall fuel,
                setupTextInstances fuel (setupFontMetrics P c) = OutOfFuel)
        /\ (cw == 0 ->
            forall fuel,
              setupTextInstances (S fuel) (setupFontMetrics P c)
              = Done (set_instances [] (setupFontMetrics P c)))).
Proof.
  intros P c cw Hctx Hw.
  assert (Hw' : canvasWidth (setupFontMetrics P c) = Fin cw)
    by (rewrite setupFontMetrics_canvasWidth; exact Hw).
  split.
  - intros e He Hpos.
    assert (Hnz : ~ e == 0) by (intros Hz; rewrite Hz in Hpos; discriminate).
    exists (S (Z.to_nat (Qceiling (cw / e) + 4))).
    rewrite (setupTextInstances_finite _ Hw' He Hnz) by lia.
    eexists; split; [reflexivity|].
    cbn [instances set_instances]; rewrite length_map, length_seq; reflexivity.
  - intros Hm Hp.
    assert (He : effectiveTextWidth (setupFontMetrics P c) = of_Z 0).
    { rewrite (setupFontMetrics_effectiveTextWidth P c Hctx), Hm, Hp.
      reflexivity. }
    split; [exact He|]; split.
    + intros Hpos.
      assert (Hinf : instancesNeeded (setupFontMetrics P c) = PInf)
        by (apply (instancesNeeded_unbounded _ Hw' He); [reflexivity|exact Hpos]).
      split; [exact Hinf|].
      intros fuel; unfold setupTextInstances.
      rewrite Hinf, pushInstances_PInf; reflexivity.
    + intros Hz fuel; unfold setupTextInstances.
      rewrite (instancesNeeded_undefined _ Hw' He) by (reflexivity || exact Hz).
      reflexivity.
Qed.

Lemma rebuild_termination_witness :
  setupTextInstances 1000
    (setupFontMetrics (scenarioPlatform 1000 0 false)
       (surfaceReady (scenarioPlatform 1000 0 false)
                     (scenarioOptions false 0 2)))
  = OutOfFuel.
Proof.
  destruct (rebuild_termination
              (scenarioPlatform 1000 0 false)
              (surfaceReady (scenarioPlatform 1000 0 false)
                            (scenarioOptions false 0 2))
              (cw := 1000) eq_refl eq_refl)
    as [_ Hzero].
  destruct (Hzero eq_refl eq_refl) as (_ & Hpos & _).
  exact (proj2 (Hpos eq_refl) 1000%nat).
Defined.

(** ** The position update *)

Section ForEach.
Variable callback :
  list TextInstance -> TextInstance -> list TextInstance -> TextInstance.

(** Elements already visited are not touched again. *)
Lemma forEachInstance_prefix :
  forall (todo before : list TextInstance),
    exists tail,
      forEachInstance callback before todo = before ++ tail
      /\ List.length tail = List.length todo.
Proof.
  induction todo as [|inst after IH]; intros before; cbn [forEachInstance].
  - exists []; rewrite app_nil_r; auto.
  - destruct (IH (before ++ [callback before inst after])) as (tail & Ht & Hl).
    exists (callback before inst after :: tail).
    rewrite Ht, <- app_assoc; cbn; auto.
Qed.

(** Visiting a prefix leaves the rest of the array to visit. *)
Lemma forEachInstance_skip :
  forall (pre before rest : list TextInstance),
    exists before',
      List.length before' = (List.length before + List.length pre)%nat
      /\ forEachInstance callback before (pre ++ rest)
         = forEachInstance callback before' rest.
Proof.
  induction pre as [|p pre IH]; intros before rest.
  - exists before; cbn; split; [lia|reflexivity].
  - cbn [app forEachInstance].
    destruct (IH (before ++ [callback before p (pre ++ rest)]) rest)
      as (before' & Hl & Hf).
    exists before'; split; [|exact Hf].
    rewrite Hl, length_app; cbn; lia.
Qed.

(** The element visited at index [length pre] ends as the callback left
    it. *)
Lemma forEachInstance_at :
  forall (pre : list TextInstance) (inst : TextInstance)
         (post : list TextInstance),
    exists before',
      List.length before' = List.length pre
      /\ nth_error (forEachInstance callback [] (pre ++ inst :: post))
                   (List.length pre)
         = Some (callback before' inst post).
Proof.
  intros pre inst post.
  destruct (forEachInstance_skip pre [] (inst :: post)) as (before' & Hl & Hf).
  cbn [List.length Nat.add] in Hl.
  exists before'; split; [exact Hl|].
  rewrite Hf; cbn [forEachInstance].
  destruct (forEachInstance_prefix post
              (before' ++ [callback before' inst post])) as (tail & Ht & _).
  rewrite Ht, <- app_assoc, <- Hl.
  rewrite nth_error_app2 by lia.
  rewrite Nat.sub_diag; reflexivity.
Qed.

(** A property of instances that the callback keeps is kept by the pass. *)
Lemma forEachInstance_map {B : Type} (g : TextInstance -> B) :
  (forall before inst after, g (callback before inst after) = g inst) ->
  forall (todo before : list TextInstance),
    map g (forEachInstance callback before todo)
    = map g before ++ map g todo.
Proof.
  intros Hg; induction todo as [|inst after IH]; intros before;
    cbn [forEachInstance map].
  - rewrite app_nil_r; reflexivity.
  - rewrite IH, map_app, <- app_assoc; cbn [map app]; rewrite Hg; reflexivity.
Qed.
End ForEach.

Lemma stepForward_keeps (c : MarqueeController)
    (before : list TextInstance) (inst : TextInstance)
    (after : list TextInstance) :
  width (stepForward c before inst after) = width inst
  /\ index (stepForward c before inst after) = index inst.
Proof.
  unfold stepForward.
  destruct (ngt _ _); split; reflexivity.
Qed.

Lemma stepReverse_keeps (c : MarqueeController)
    (before : list TextInstance) (inst : TextInstance)
    (after : list TextInstance) :
  width (stepReverse c before inst after) = width inst
  /\ index (stepReverse c before inst after) = index inst.
Proof.
  unfold stepReverse.
  destruct (nlt _ _); split; reflexivity.
Qed.

(** A position update moves instances; it keeps their number, widths and
    indices. *)
Lemma updatePositions_keeps (c : MarqueeController) :
  map width (instances (updatePositions c)) = map width (instances c)
  /\ map index (instances (updatePositions c)) = map index (instances c).
Proof.
  unfold updatePositions; destruct (reverse (options c));
    cbn [instances set_instances]; split;
    rewrite forEachInstance_map; try reflexivity; intros;
    first [apply stepForward_keeps | apply stepReverse_keeps].
Qed.

Lemma fillInstances_ops (P : Platform) (c : MarqueeController) (y : num) :
  forall (l : list TextInstance) (ctx ctx' : Context2D),
    (fillInstances P c y l ctx = Done ctx'
     \/ exists e, fillInstances P c y l ctx = Raised e ctx') ->
    forall op,
      In op (ops ctx') ->
      In op (ops ctx)
      \/ exists inst,
           In inst l /\ isVisible c inst = true
           /\ op = FillText (text (options c)) (x inst) y.
Proof.
  induction l as [|inst rest IH]; intros ctx ctx' Hout op Hop;
    cbn [fillInstances] in Hout.
  - left; destruct Hout as [H | [e H]]; [|discriminate].
    injection H as <-; exact Hop.
  - destruct (isVisible c inst) eqn:Hv.
    + destruct (fillText_raises P (text (options c)) (x inst) y).
      * left; destruct Hout as [H | [e H]]; [discriminate|].
        injection H as _ <-; exact Hop.
      * destruct (IH _ _ Hout op Hop) as [Hin | (i & Hi & Hvi & Heq)].
        -- cbn [pushOp ops] in Hin; apply in_app_or in Hin.
           destruct Hin as [Hin | [<- | []]]; [left; exact Hin|].
           right; exists inst; cbn; auto.
        -- right; exists i; cbn; auto.
    + destruct (IH _ _ Hout op Hop) as [Hin | (i & Hi & Hvi & Heq)];
        [left; exact Hin|].
      right; exists i; cbn; auto.
Qed.

(** Every [fillText] that a [draw] adds is at the position of an instance
    that passes the culling test. *)
Lemma draw_fills_visible_only (P : Platform) (c c' : MarqueeController) :
  (draw P c = Done c' \/ exists e, draw P c = Raised e c') ->
  forall content left top,
    In (FillText content left top) (ops (ctx2d (canvas c'))) ->
    In (FillText content left top) (ops (ctx2d (canvas c)))
    \/ exists inst,
         In inst (instances c) /\ isVisible c inst = true /\ x inst = left.
Proof.
  unfold draw; destruct (context c).
  - match goal with
    | |- context [fillInstances P c ?y ?l ?ctx] =>
        destruct (fillInstances P c y l ctx) as [ctx1|e1 ctx1|] eqn:Hf
    end; intros Hout content left top Hin.
    + destruct Hout as [H | [e H]]; [|discriminate].
      injection H as <-; cbn in Hin.
      destruct (fillInstances_ops _ _ _ _ _ (or_introl Hf) _ Hin)
        as [Hold | (i & Hi & Hv & Heq)].
      * cbn in Hold; apply in_app_or in Hold.
        destruct Hold as [Hold | [Hc | []]]; [left; exact Hold|discriminate].
      * right; exists i; injection Heq as _ <- _; auto.
    + destruct Hout as [H | [e H]]; [discriminate|].
      injection H as _ <-; cbn in Hin.
      destruct (fillInstances_ops _ _ _ _ _
                  (or_intror (ex_intro _ e1 Hf)) _ Hin)
        as [Hold | (i & Hi & Hv & Heq)].
      * cbn in Hold; apply in_app_or in Hold.
        destruct Hold as [Hold | [Hc | []]]; [left; exact Hold|discriminate].
      * right; exists i; injection Heq as _ <- _; auto.
    + destruct Hout as [H | [e H]]; discriminate.
  - intros [H | [e H]]; [|discriminate].
    injection H as <-; auto.
Qed.

Lemma updatePositions_canvas (c : MarqueeController) :
  canvas (updatePositions c) = canvas c.
Proof. unfold updatePositions; destruct (reverse (options c)); reflexivity. Qed.

Lemma isVisible_updatePositions (c : MarqueeController) (inst : TextInstance) :
  isVisible (updatePositions c) inst = isVisible c inst.
Proof. unfold updatePositions; destruct (reverse (options c)); reflexivity. Qed.

(** ** The right boundary *)

(** C5: with speed 5, forward motion and logical width 1000, an instance of
    width 200 at position 995 is at position exactly 1000 after one position
    update: the recycle test [1000 > 1000] is false, so it is not relocated
    on that tick, and the culling test [1000 < 1000] is false, so the draw
    of that tick issues no [fillText] at position 1000. *)
Theorem instance_reaching_right_boundary :
  forall (c : MarqueeController) (pre post : list TextInstance)
         (inst : TextInstance),
    speed (options c) = of_Z 5 ->
    reverse (options c) = false ->
    canvasWidth c = of_Z 1000 ->
    textWidth c = of_Z 200 ->
    x inst = of_Z 995 ->
    width inst = of_Z 200 ->
    instances c = pre ++ inst :: post ->
    nth_error (instances (updatePositions c)) (List.length pre)
    = Some (set_x inst (of_Z 1000))
    /\ ngt (of_Z 1000) (canvasWidth c) = false
    /\ isVisible (updatePositions c) (set_x inst (of_Z 1000)) = false
    /\ forall (P : Platform) (c' : MarqueeController),
         (draw P (updatePositions c) = Done c'
          \/ exists e, draw P (updatePositions c) = Raised e c') ->
         forall content top,
           In (FillText content (of_Z 1000) top) (ops (ctx2d (canvas c'))) ->
           In (FillText content (of_Z 1000) top) (ops (ctx2d (canvas c))).
Proof.
  intros c pre post inst Hs Hr Hw Ht Hx Hwd Hi.
  assert (Hcull : forall i, x i = of_Z 1000 -> isVisible c i = false).
  { intros i Hxi; unfold isVisible; rewrite Hxi, Hw, Ht; reflexivity. }
  split.
  { unfold updatePositions; rewrite Hr; cbn [instances set_instances].
    rewrite Hi.
    destruct (forEachInstance_at (stepForward c) pre inst post)
      as (before' & _ & Hn).
    rewrite Hn; f_equal.
    unfold stepForward; rewrite Hs, Hx, nadd_of_Z; cbn [x set_x Z.add].
    rewrite Hw; reflexivity. }
  split; [rewrite Hw; reflexivity|].
  split; [rewrite isVisible_updatePositions; apply Hcull; reflexivity|].
  intros P c' Hout content top Hin.
  destruct (@draw_fills_visible_only P _ _ Hout _ _ _ Hin)
    as [Hold | (i & _ & Hv & Hxi)].
  - rewrite updatePositions_canvas in Hold; exact Hold.
  - rewrite isVisible_updatePositions, (Hcull i Hxi) in Hv; discriminate.
Qed.

Lemma instance_reaching_right_boundary_witness :
  nth_error (instances (updatePositions boundaryEngine))
            (List.length (@nil TextInstance))
  = Some (set_x (mkInstance (of_Z 995) (of_Z 200) 0) (of_Z 1000)).
Proof.
  exact (proj1 (instance_reaching_right_boundary
                  boundaryEngine [] (tl (instances boundaryEngine))
                  (mkInstance (of_Z 995) (of_Z 200) 0)
                  ltac:(vm_compute; reflexivity)
                  ltac:(vm_compute; reflexivity)
                  ltac:(vm_compute; reflexivity)
                  ltac:(vm_compute; reflexivity)
                  ltac:(vm_compute; reflexivity)
                  ltac:(vm_compute; reflexivity)
                  ltac:(vm_compute; reflexivity))).
Defined.

(** ** Pausing and resuming *)

(** An instance that stays in view is moved by one speed step, in place. *)
Lemma updatePositions_at (c : MarqueeController)
    (pre post : list TextInstance) (inst : TextInstance) :
  instances c = pre ++ inst :: post ->
  leavesView c (advance c (x inst)) = false ->
  nth_error (instances (updatePositions c)) (List.length pre)
  = Some (set_x inst (advance c (x inst))).
Proof.
  intros Hi Hstay; unfold updatePositions, advance, leavesView in *.
  destruct (reverse (options c)); cbn [instances set_instances]; rewrite Hi.
  - destruct (forEachInstance_at (stepReverse c) pre inst post)
      as (before' & _ & Hn).
    rewrite Hn; unfold stepReverse; cbn [x set_x]; rewrite Hstay; reflexivity.
  - destruct (forEachInstance_at (stepForward c) pre inst post)
      as (before' & _ & Hn).
    rewrite Hn; unfold stepForward; cbn [x set_x]; rewrite Hstay; reflexivity.
Qed.

(** C8: while the pause flag of the canvas is set, every frame tick
    returns normally, leaves every instance position and the drawing
    context unchanged (no redraw), and leaves a next frame scheduled; when
    the flag is cleared, the next tick moves the instances from exactly the
    frozen positions: its result is the position update of the frozen
    tiling, and every instance that stays in view is, in place, one speed
    step away from its frozen position in the direction of motion. *)
Theorem paused_frames_freeze_positions :
  forall (P : Platform) (n : nat) (w : World),
    paused (canvas (marquee w)) = true ->
    exists wn,
      animateN P n w = Done wn
      /\ instances (marquee wn) = instances (marquee w)
      /\ ctx2d (canvas (marquee wn)) = ctx2d (canvas (marquee w))
      /\ ((0 < n)%nat ->
          animationId (marquee wn) = Some (lastHandle (window wn))
          /\ In (lastHandle (window wn)) (pending (window wn)))
      /\ exists w',
           (animate P (setPaused false wn) = Done w'
            \/ animate P (setPaused false wn) = Raised DrawingFailure w')
           /\ instances (marquee w') = instances (updatePositions (marquee w))
           /\ forall (pre post : list TextInstance) (inst : TextInstance),
                instances (marquee w) = pre ++ inst :: post ->
                leavesView (marquee w) (advance (marquee w) (x inst)) = false ->
                nth_error (instances (marquee w')) (List.length pre)
                = Some (set_x inst (advance (marquee w) (x inst))).
Proof.
  intros P n w Hp.
  destruct (animateN_paused P n w Hp) as (wn & id & Hn & Hm & Hs).
  exists wn; split; [exact Hn|].
  split; [rewrite Hm; reflexivity|].
  split; [rewrite Hm; reflexivity|].
  split.
  { intros Hpos; destruct (Hs Hpos) as [Hid Hin]; split; [|exact Hin].
    rewrite Hm; cbn; exact Hid. }
  destruct (animate_running P (setPaused false wn) eq_refl)
    as (w' & Hout & Hi & _).
  assert (Hu : instances (marquee w') = instances (updatePositions (marquee w))).
  { rewrite Hi; apply updatePositions_resumed with (id := id); exact Hm. }
  exists w'; split; [destruct Hout as [Hd | [He _]]; auto|].
  split; [exact Hu|].
  intros pre post inst Heq Hstay; rewrite Hu.
  exact (@updatePositions_at (marquee w) pre post inst Heq Hstay).
Qed.

Lemma paused_frames_freeze_positions_witness :
  exists wn,
    animateN (scenarioPlatform 1000 200 false) 3
      (setPaused true (initialized (scenarioPlatform 1000 200 false)
                         emptyPartial)) = Done wn
    /\ instances (marquee wn)
       = instances (marquee (setPaused true
                               (initialized (scenarioPlatform 1000 200 false)
                                  emptyPartial)))
    /\ exists w',
         (animate (scenarioPlatform 1000 200 false) (setPaused false wn)
          = Done w'
          \/ animate (scenarioPlatform 1000 200 false) (setPaused false wn)
             = Raised DrawingFailure w')
         /\ nth_error (instances (marquee w')) (List.length (@nil TextInstance))
            = Some (set_x (mkInstance (of_Z (-220)) (of_Z 200) 0)
                      (advance
                         (marquee (setPaused true
                                     (initialized
                                        (scenarioPlatform 1000 200 false)
                                        emptyPartial)))
                         (x (mkInstance (of_Z (-220)) (of_Z 200) 0)))).
Proof.
  destruct (paused_frames_freeze_positions
              (scenarioPlatform 1000 200 false) 3
              (setPaused true (initialized (scenarioPlatform 1000 200 false)
                                 emptyPartial)) eq_refl)
    as (wn & Hn & Hi & _ & _ & w' & Hout & _ & Hat).
  exists wn; split; [exact Hn|split; [exact Hi|]].
  exists w'; split; [exact Hout|].
  apply (Hat [] (tl (instances
                       (marquee (initialized (scenarioPlatform 1000 200 false)
                                   emptyPartial))))
             (mkInstance (of_Z (-220)) (of_Z 200) 0));
    vm_compute; reflexivity.
Defined.

(** ** Spacing after a recycle *)

(** C4 (the code at the failing inputs): container width 400, measured text
    width 40, paddingX 10 (effective tile width 50), speed 5.  In reverse
    motion the first instance is recycled on tick 89: it reads the position
    of the rightmost instance (index 11) before that instance has moved in
    the same pass, and ends one effective tile width plus one speed step,
    55 px and not 50 px, to its right.  In forward motion the same happens
    on tick 11 to the instance of index 8, which ends 55 px to the left of
    the leftmost instance (index 11). *)
Theorem recycled_instance_spacing_drifts :
  (exists w recycled rightmost,
      animateN (scenarioPlatform 400 40 false) 89
        (initialized (scenarioPlatform 400 40 false) (scenarioOptions true 10 5))
      = Done w
      /\ map x (instances (marquee w))
         = map of_Z [560; 5; 55; 105; 155; 205; 255; 305; 355; 405; 455; 505]%Z
      /\ effectiveTextWidth (marquee w) = of_Z 50
      /\ nth_error (instances (marquee w)) 0 = Some recycled
      /\ nth_error (instances (marquee w)) 11 = Some rightmost
      /\ x recycled
         = nadd (nadd (x rightmost) (effectiveTextWidth (marquee w)))
                (speed (options (marquee w)))
      /\ x recycled <> nadd (x rightmost) (effectiveTextWidth (marquee w)))
  /\ (exists w recycled leftmost,
         animateN (scenarioPlatform 400 40 false) 11
           (initialized (scenarioPlatform 400 40 false)
                        (scenarioOptions false 10 5))
         = Done w
         /\ map x (instances (marquee w))
            = map of_Z [5; 55; 105; 155; 205; 255; 305; 355;
                        -200; -45; -95; -145]%Z
         /\ effectiveTextWidth (marquee w) = of_Z 50
         /\ nth_error (instances (marquee w)) 8 = Some recycled
         /\ nth_error (instances (marquee w)) 11 = Some leftmost
         /\ x recycled
            = nsub (nsub (x leftmost) (effectiveTextWidth (marquee w)))
                   (speed (options (marquee w)))
         /\ x recycled <> nsub (x leftmost) (effectiveTextWidth (marquee w))).
Proof.
  split; do 3 eexists; (split; [vm_compute; reflexivity|]);
    cbn [nth_error marquee instances];
    repeat (split; [reflexivity|]); vm_compute; discriminate.
Qed.

(** ** Re-applying the configuration *)

Lemma spread_empty (o : MarqueeOptions) : spread o emptyPartial = o.
Proof. destruct o; reflexivity. Qed.

Lemma eta_options (c : MarqueeController) : set_options (options c) c = c.
Proof. destruct c; reflexivity. Qed.

(** The surface that a setup derives depends on the platform and on the
    configuration only. *)
Lemma setupCanvas_determined (P : Platform) (c c' c1 : MarqueeController) :
  options c = options c' ->
  setupCanvas P c = Done c1 ->
  exists c1',
    setupCanvas P c' = Done c1'
    /\ surfaceState c1' = surfaceState c1
    /\ options c1' = options c'
    /\ options c1 = options c
    /\ animationId c1' = animationId c'
    /\ isInitialized c1' = isInitialized c'.
Proof.
  intros Ho; unfold setupCanvas.
  destruct (getContext_succeeds P); [|discriminate].
  intros H; injection H as <-.
  eexists; split; [reflexivity|].
  unfold surfaceState, setupFontMetrics, measureTextHeight, getContainerWidth.
  cbn; rewrite Ho; repeat split.
Qed.

Lemma pushInstances_ext (c c' : MarqueeController) (n : num) :
  reverse (options c) = reverse (options c') ->
  canvasWidth c = canvasWidth c' ->
  textWidth c = textWidth c' ->
  effectiveTextWidth c = effectiveTextWidth c' ->
  forall (fuel i : nat) (acc : list TextInstance),
    pushInstances fuel c n i acc = pushInstances fuel c' n i acc.
Proof.
  intros Hr Hw Ht He; induction fuel as [|fuel IH]; intros i acc;
    [reflexivity|].
  cbn [pushInstances]; destruct (nlt (of_nat i) n); [|reflexivity].
  rewrite IH; unfold seedInstance; rewrite Hr, Hw, Ht, He; reflexivity.
Qed.

Lemma surfaceState_tiling (c c' : MarqueeController) :
  surfaceState c = surfaceState c' ->
  canvasWidth c = canvasWidth c'
  /\ textWidth c = textWidth c'
  /\ effectiveTextWidth c = effectiveTextWidth c'.
Proof.
  unfold surfaceState, canvasWidth; intros H.
  injection H as H1 H2 H3 H4 H5 H6 H7.
  rewrite H1, H4, H5, H7; auto.
Qed.

Lemma draw_state (P : Platform) (c c' : MarqueeController) :
  (draw P c = Done c' \/ exists e, draw P c = Raised e c') ->
  exists ctx, c' = set_ctx2d ctx c.
Proof.
  unfold draw; destruct (context c).
  - destruct (fillInstances P c _ _ _) as [ctx1|e1 ctx1|];
      intros [H | [e H]]; try discriminate.
    + injection H as <-; eauto.
    + injection H as _ <-; eauto.
  - intros [H | [e H]]; [|discriminate].
    injection H as <-; exists (ctx2d (canvas c)).
    destruct c as [[] ? ? ? ? ? ? ? ? ? ?]; reflexivity.
Qed.

(** What a frame tick keeps. *)
Lemma animate_keeps (P : Platform) (w w' : World) :
  (animate P w = Done w' \/ exists e, animate P w = Raised e w') ->
  options (marquee w') = options (marquee w)
  /\ surfaceState (marquee w') = surfaceState (marquee w)
  /\ isInitialized (marquee w') = isInitialized (marquee w)
  /\ map width (instances (marquee w')) = map width (instances (marquee w))
  /\ map index (instances (marquee w')) = map index (instances (marquee w)).
Proof.
  unfold animate; cbn [requestAnimationFrame].
  cbn [canvas set_animationId].
  destruct (paused (canvas (marquee w))).
  - intros [H | [e H]]; [|discriminate].
    injection H as <-; cbn; auto.
  - rewrite updatePositions_animationId.
    destruct (draw P _) as [c1|e1 c1|] eqn:Hd; intros [H | [e H]];
      try discriminate.
    + injection H as <-.
      destruct (@draw_state P _ _ (or_introl Hd)) as (ctx & ->).
      destruct (updatePositions_keeps (marquee w)) as [Hwd Hix].
      cbn [marquee]; unfold set_ctx2d, surfaceState.
      cbn; rewrite updatePositions_canvas, Hwd, Hix.
      unfold updatePositions; destruct (reverse (options (marquee w)));
        cbn; auto.
    + injection H as _ <-.
      destruct (@draw_state P _ _ (or_intror (ex_intro _ e1 Hd)))
        as (ctx & ->).
      destruct (updatePositions_keeps (marquee w)) as [Hwd Hix].
      cbn [marquee]; unfold set_ctx2d, surfaceState.
      cbn; rewrite updatePositions_canvas, Hwd, Hix.
      unfold updatePositions; destruct (reverse (options (marquee w)));
        cbn; auto.
Qed.

Lemma frames_keep (P : Platform) (w w' : World) :
  frames P w w' ->
  options (marquee w') = options (marquee w)
  /\ surfaceState (marquee w') = surfaceState (marquee w)
  /\ isInitialized (marquee w') = isInitialized (marquee w)
  /\ map width (instances (marquee w')) = map width (instances (marquee w))
  /\ map index (instances (marquee w')) = map index (instances (marquee w)).
Proof.
  induction 1 as [w | w w1 w2 _ IH Ht | w w1 b _ IH].
  - auto.
  - destruct IH as (Ho & Hs & Hi & Hw & Hx).
    destruct (@animate_keeps P _ _ Ht) as (Ho' & Hs' & Hi' & Hw' & Hx').
    rewrite Ho', Hs', Hi', Hw', Hx'; auto.
  - destruct IH as (Ho & Hs & Hi & Hw & Hx).
    unfold setPaused; cbn; auto.
Qed.

(** What a successful initialization leaves. *)
Lemma initialize_result (P : Platform) (fuel : nat) (w0 w1 : World) :
  initialize P fuel w0 = Done w1 ->
  exists c1 l,
    setupCanvas P (marquee w0) = Done c1
    /\ pushInstances fuel c1 (instancesNeeded c1) 0 [] = Done l
    /\ instances (marquee w1) = l
    /\ options (marquee w1) = options c1
    /\ surfaceState (marquee w1) = surfaceState c1
    /\ isInitialized (marquee w1) = true.
Proof.
  unfold initialize, setupTextInstances.
  destruct (setupCanvas P (marquee w0)) as [c1|e c1|]; try discriminate.
  destruct (pushInstances fuel c1 (instancesNeeded c1) 0 [])
    as [l|e l|] eqn:Hl; try discriminate.
  intros H; injection H as <-.
  exists c1, l; split; [reflexivity|]; split; [exact Hl|].
  unfold startAnimation; cbn [marquee animationId set_instances].
  destruct (negb (truthy (animationId c1))); cbn; auto.
Qed.

(** C1, as stated, fails: on an initialized engine whose instances have
    moved, [update({})] does not leave the positions unchanged. *)
Lemma update_empty_changes_positions :
  ~ (forall (P : Platform) (fuel : nat) (w w' : World),
        isInitialized (marquee w) = true ->
        update P fuel emptyPartial w = Done w' ->
        instances (marquee w') = instances (marquee w)).
Proof.
  intros H.
  assert (Hu : update (scenarioPlatform 1000 200 false) 10 emptyPartial
                 (running (scenarioPlatform 1000 200 false)
                          (scenarioOptions false 20 2) 1)
               = Done (stateOf
                         (update (scenarioPlatform 1000 200 false) 10
                            emptyPartial
                            (running (scenarioPlatform 1000 200 false)
                                     (scenarioOptions false 20 2) 1))
                         (freshWorld emptyPartial)))
    by (vm_compute; reflexivity).
  apply H in Hu; [|vm_compute; reflexivity].
  vm_compute in Hu; discriminate Hu.
Qed.

(** C1 (amended): on an engine that was initialized and has since only
    run frames, under an unchanged platform, [update({})] returns normally
    and leaves the configuration, the surface state (physical size, scale
    factor, text metrics, effective tile width), the scheduled frame and the
    number, widths and indices of the instances unchanged; it rebuilds the
    tiling, so every instance position is reset to the seed position that
    initialization gave it. *)
Theorem update_empty_rebuilds_the_tiling :
  forall (P : Platform) (fuel : nat) (w0 w1 w : World),
    initialize P fuel w0 = Done w1 ->
    frames P w1 w ->
    exists w',
      update P fuel emptyPartial w = Done w'
      /\ options (marquee w') = options (marquee w)
      /\ surfaceState (marquee w') = surfaceState (marquee w)
      /\ window w' = window w
      /\ animationId (marquee w') = animationId (marquee w)
      /\ map width (instances (marquee w')) = map width (instances (marquee w))
      /\ map index (instances (marquee w')) = map index (instances (marquee w))
      /\ instances (marquee w') = instances (marquee w1).
Proof.
  intros P fuel w0 w1 w Hinit Hfr.
  destruct (@initialize_result P fuel w0 _ Hinit)
    as (c1 & l & Hsetup & Hpush & Hl & Ho1 & Hs1 & Hi1).
  destruct (@frames_keep _ _ _ Hfr) as (Ho & Hs & Hi & Hwd & Hix).
  assert (Hoc : options (marquee w0) = options (marquee w)).
  { destruct (@setupCanvas_determined P (marquee w0) (marquee w0) _ eq_refl Hsetup)
      as (_ & _ & _ & _ & Hc1 & _).
    rewrite Ho, Ho1, Hc1; reflexivity. }
  destruct (@setupCanvas_determined P (marquee w0) (marquee w) _ Hoc Hsetup)
    as (c1' & Hsetup' & Hs' & Ho' & _ & Ha' & Hi').
  destruct (@surfaceState_tiling _ _ Hs') as (Hcw & Htw & Hew).
  assert (Hneed : instancesNeeded c1' = instancesNeeded c1)
    by (unfold instancesNeeded; rewrite Hcw, Hew; reflexivity).
  assert (Hrev : reverse (options c1') = reverse (options c1))
    by (rewrite Ho', Ho, Ho1; reflexivity).
  unfold update; rewrite spread_empty, eta_options, Hi, Hi1.
  rewrite Hsetup'; unfold setupTextInstances.
  rewrite Hneed, (@pushInstances_ext _ _ _ Hrev Hcw Htw Hew), Hpush.
  eexists; split; [reflexivity|]; cbn [marquee window].
  cbn [instances set_instances options animationId].
  change (surfaceState (set_instances l c1')) with (surfaceState c1').
  rewrite Hs', Hs, Hs1, Hwd, Hix, Hl; repeat split; assumption.
Qed.

Lemma update_empty_rebuilds_the_tiling_witness :
  exists w',
    update (scenarioPlatform 1000 200 false) 10 emptyPartial
      (running (scenarioPlatform 1000 200 false)
               (scenarioOptions false 20 2) 1) = Done w'
    /\ instances (marquee w')
       = instances (marquee (initialized (scenarioPlatform 1000 200 false)
                                         (scenarioOptions false 20 2))).
Proof.
  destruct (@update_empty_rebuilds_the_tiling
              (scenarioPlatform 1000 200 false) 10%nat
              (freshWorld (scenarioOptions false 20 2))
              (initialized (scenarioPlatform 1000 200 false)
                           (scenarioOptions false 20 2))
              (running (scenarioPlatform 1000 200 false)
                       (scenarioOptions false 20 2) 1)
              ltac:(vm_compute; reflexivity)
              ltac:(eapply frames_tick;
                    [apply frames_none|left; vm_compute; reflexivity]))
    as (w' & Hu & _ & _ & _ & _ & _ & _ & Hi).
  exists w'; split; [exact Hu|exact Hi].
Defined.

(** ** Instance count *)

Lemma pushInstances_of_Z_inv (c : MarqueeController) (k : Z) :
  forall (fuel i : nat) (acc l : list TextInstance),
    pushInstances fuel c (of_Z k) i acc = Done l ->
    l = acc ++ map (seedInstance c) (seq i (Z.to_nat k - i)).
Proof.
  induction fuel as [|fuel IH]; intros i acc l; [discriminate|].
  cbn [pushInstances]; unfold of_nat; rewrite nlt_of_Z.
  destruct (Z.of_nat i <? k)%Z eqn:Hlt.
  - apply Z.ltb_lt in Hlt; intros H; apply IH in H; rewrite H.
    replace (Z.to_nat k - i)%nat with (S (Z.to_nat k - S i)) by lia.
    cbn [seq map]; rewrite <- app_assoc; reflexivity.
  - apply Z.ltb_ge in Hlt; intros H; injection H as <-.
    replace (Z.to_nat k - i)%nat with 0%nat by lia.
    cbn [seq map]; rewrite app_nil_r; reflexivity.
Qed.

(** C6, as stated, fails: the count is taken from the width the engine
    reads back from the canvas, not from the content width of the
    container.  At pixel ratio 3/2, with a container 331 px wide and a tile
    331 px wide (text 311, paddingX 20), initialization builds 6 instances
    where [ceil(331 / 331) + 4] is 5. *)
Lemma tiling_count_is_not_from_the_content_width :
  ~ (forall (P : Platform) (fuel : nat) (w0 w1 : World) (l e : Q),
        initialize P fuel w0 = Done w1 ->
        getContainerWidth P (marquee w1) = Fin l ->
        effectiveTextWidth (marquee w1) = Fin e ->
        0 < e -> 0 <= l ->
        Z.of_nat (List.length (instances (marquee w1)))
        = (Qceiling (l / e) + 4)%Z).
Proof.
  intros H.
  specialize (H (ratioPlatform (3 # 2) 331 311) 10%nat
                (freshWorld (scenarioOptions false 20 2))
                (initialized (ratioPlatform (3 # 2) 331 311)
                             (scenarioOptions false 20 2))
                331 331
                ltac:(vm_compute; reflexivity)
                ltac:(vm_compute; reflexivity)
                ltac:(vm_compute; reflexivity)
                eq_refl
                ltac:(discriminate)).
  vm_compute in H; discriminate H.
Qed.

(** C6 (amended): for a surface whose width as the engine reads it back,
    [canvas.width / ratio], is [cw >= 0] and an effective tile width
    [e > 0], every re-tiling terminates and leaves [ceil(cw / e) + 4]
    instances, and so does initialization.  That width is not the content
    width of the container: at pixel ratio 3/2, content width 331 and tile
    width 331 the canvas is 497 pixels wide and initialization builds 6
    instances, one more than the content width gives.  With content width
    1000, measured text width 200 and paddingX 20 the effective tile width
    is 220 and initialization builds 9 instances, at pixel ratio 1 and at
    pixel ratio 2 (canvas 2000 pixels wide). *)
Theorem tiling_instance_count :
  (forall (c : MarqueeController) (cw e : Q),
      canvasWidth c = Fin cw ->
      effectiveTextWidth c = Fin e ->
      0 < e -> 0 <= cw ->
      forall fuel,
        (Z.to_nat (Qceiling (cw / e) + 4) < fuel)%nat ->
        exists c',
          setupTextInstances fuel c = Done c'
          /\ Z.of_nat (List.length (instances c')) = (Qceiling (cw / e) + 4)%Z)
  /\ (forall (P : Platform) (fuel : nat) (w0 w1 : World) (cw e : Q),
         initialize P fuel w0 = Done w1 ->
         canvasWidth (marquee w1) = Fin cw ->
         effectiveTextWidth (marquee w1) = Fin e ->
         0 < e -> 0 <= cw ->
         Z.of_nat (List.length (instances (marquee w1)))
         = (Qceiling (cw / e) + 4)%Z)
  /\ (exists w,
         initialize (scenarioPlatform 1000 200 false) 10
                    (freshWorld (scenarioOptions false 20 2)) = Done w
         /\ getContainerWidth (scenarioPlatform 1000 200 false) (marquee w)
            = of_Z 1000
         /\ canvasWidth (marquee w) = of_Z 1000
         /\ textWidth (marquee w) = of_Z 200
         /\ effectiveTextWidth (marquee w) = of_Z 220
         /\ List.length (instances (marquee w)) = 9%nat)
  /\ (exists w,
         initialize (ratioPlatform 2 1000 200) 10
                    (freshWorld (scenarioOptions false 20 2)) = Done w
         /\ getContainerWidth (ratioPlatform 2 1000 200) (marquee w)
            = of_Z 1000
         /\ ratio (marquee w) = of_Z 2
         /\ canvas_width (canvas (marquee w)) = of_Z 2000
         /\ canvasWidth (marquee w) = of_Z 1000
         /\ textWidth (marquee w) = of_Z 200
         /\ effectiveTextWidth (marquee w) = of_Z 220
         /\ List.length (instances (marquee w)) = 9%nat)
  /\ (exists w,
         initialize (ratioPlatform (3 # 2) 331 311) 10
                    (freshWorld (scenarioOptions false 20 2)) = Done w
         /\ getContainerWidth (ratioPlatform (3 # 2) 331 311) (marquee w)
            = of_Z 331
         /\ canvas_width (canvas (marquee w)) = of_Z 497
         /\ effectiveTextWidth (marquee w) = of_Z 331
         /\ List.length (instances (marquee w)) = 6%nat
         /\ (Qceiling (331 / 331) + 4 = 5)%Z).
Proof.
  split; [|split; [|split; [|split]]].
  - intros c cw e Hw He Hpos Hcw fuel Hf.
    assert (Hnz : ~ e == 0) by (intros Hz; rewrite Hz in Hpos; discriminate).
    rewrite (setupTextInstances_finite c Hw He Hnz Hf).
    eexists; split; [reflexivity|].
    cbn [instances set_instances]; rewrite length_map, length_seq.
    pose proof (Qceiling_nonneg (Qdiv_nonneg Hcw Hpos)); lia.
  - intros P fuel w0 w1 cw e Hinit Hw He Hpos Hcw.
    assert (Hnz : ~ e == 0) by (intros Hz; rewrite Hz in Hpos; discriminate).
    destruct (@initialize_result P fuel w0 _ Hinit)
      as (c1 & l & _ & Hpush & Hl & _ & Hs1 & _).
    destruct (@surfaceState_tiling _ _ Hs1) as (Hcw1 & _ & Hew1).
    rewrite Hcw1 in Hw; rewrite Hew1 in He.
    rewrite (instancesNeeded_finite c1 Hw He Hnz) in Hpush.
    apply pushInstances_of_Z_inv in Hpush.
    rewrite Hl, Hpush; cbn [app]; rewrite length_map, length_seq.
    pose proof (Qceiling_nonneg (Qdiv_nonneg Hcw Hpos)); lia.
  - eexists; split; [vm_compute; reflexivity|].
    repeat (split; [vm_compute; reflexivity|]); vm_compute; reflexivity.
  - eexists; split; [vm_compute; reflexivity|].
    repeat (split; [vm_compute; reflexivity|]); vm_compute; reflexivity.
  - eexists; split; [vm_compute; reflexivity|].
    repeat (split; [vm_compute; reflexivity|]); vm_compute; reflexivity.
Qed.

Lemma tiling_instance_count_witness :
  exists c',
    setupTextInstances 10
      (marquee (initialized (ratioPlatform 2 1000 200)
                  (scenarioOptions false 20 2))) = Done c'
    /\ Z.of_nat (List.length (instances c')) = (Qceiling (1000 / 220) + 4)%Z.
Proof.
  apply (proj1 tiling_instance_count
           (marquee (initialized (ratioPlatform 2 1000 200)
                       (scenarioOptions false 20 2)))
           1000 220).
  - vm_compute; reflexivity.
  - vm_compute; reflexivity.
  - reflexivity.
  - discriminate.
  - vm_compute; lia.
Defined.


(** * Further properties of the engine *)

(** ** The sizing container *)

Lemma find_prefix {A : Type} (f : A -> bool) (l : list A) :
  (exists pre e post,
      l = pre ++ e :: post
      /\ Forall (fun a => f a = false) pre
      /\ f e = true /\ find f l = Some e)
  \/ (Forall (fun a => f a = false) l /\ find f l = None).
Proof.
  induction l as [|a l IH]; cbn [find].
  - right; split; [constructor|reflexivity].
  - destruct (f a) eqn:Ha.
    + left; exists [], a, l; repeat split; auto.
    + destruct IH as [(pre & e & post & -> & Hpre & He & Hf) | [Hall Hf]].
      * left; exists (a :: pre), e, post; repeat split; auto.
      * right; split; [constructor; assumption|exact Hf].
Qed.

(** X1: [findContainer] returns the nearest ancestor of the canvas that
    carries the class [marquee-canvas] or [banner], or the attribute
    [marquee-canvas], or is strictly wider than 300 px: no ancestor below it
    qualifies; when no ancestor qualifies it returns [document.body].  An
    unmarked ancestor exactly 300 px wide does not qualify. *)
Theorem findContainer_nearest_suitable :
  forall P : Platform,
    ((exists pre e post,
         ancestors P = pre ++ e :: post
         /\ Forall (fun a => suitable a = false) pre
         /\ suitable e = true
         /\ findContainer P = e)
     \/ (Forall (fun a => suitable a = false) (ancestors P)
         /\ findContainer P = body P))
    /\ (forall (e : Element) (q : Q),
           classMarqueeCanvas e = false -> classBanner e = false ->
           attrMarqueeCanvas e = false -> clientWidth e = Fin q ->
           (suitable e = true <-> 300 < q)).
Proof.
  intros P; split.
  - unfold findContainer.
    destruct (find_prefix suitable (ancestors P))
      as [(pre & e & post & Hl & Hpre & He & Hf) | [Hall Hf]]; rewrite Hf.
    + left; exists pre, e, post; auto.
    + right; auto.
  - intros e q H1 H2 H3 Hw; unfold suitable; rewrite H1, H2, H3, Hw.
    cbn [orb ngt nlt of_Z]; rewrite Qlt_alt.
    change (inject_Z 300) with 300.
    destruct (300 ?= q); split; intros H;
      try reflexivity; try discriminate.
Qed.

(** ** Configuration merges *)

Lemma spread_spread (o : MarqueeOptions) (p q : PartialOptions) :
  spread (spread o p) q = spread o (mergePartial p q).
Proof.
  destruct o, p as [a b c d e f g h], q as [a' b' c' d' e' f' g' h'].
  unfold spread, mergePartial; cbn.
  destruct a', b', c', d', e', f', g', h'; reflexivity.
Qed.

Lemma setupCanvas_options (P : Platform) (c : MarqueeController) :
  options (stateOf (setupCanvas P c) c) = options c.
Proof.
  unfold setupCanvas; destruct (getContext_succeeds P); [|reflexivity].
  unfold setupFontMetrics; reflexivity.
Qed.

Lemma update_options (P : Platform) (fuel : nat) (p : PartialOptions)
    (w w1 : World) :
  update P fuel p w = Done w1 ->
  options (marquee w1) = spread (options (marquee w)) p
  /\ window w1 = window w
  /\ animationId (marquee w1) = animationId (marquee w).
Proof.
  unfold update; cbn [isInitialized set_options].
  destruct (isInitialized (marquee w)).
  - pose proof (setupCanvas_options P
                  (set_options (spread (options (marquee w)) p) (marquee w)))
      as Ho.
    assert (Ha : animationId
                   (stateOf (setupCanvas P
                               (set_options (spread (options (marquee w)) p)
                                            (marquee w)))
                            (marquee w))
                 = animationId (marquee w)).
    { unfold setupCanvas; destruct (getContext_succeeds P); reflexivity. }
    destruct (setupCanvas P _) as [c1|e c1|]; cbn [stateOf] in Ho, Ha;
      try discriminate.
    + unfold setupTextInstances.
      destruct (pushInstances fuel c1 (instancesNeeded c1) 0 [])
        as [l|e l|]; try discriminate; intros H; injection H as <-;
        cbn; auto.
    + intros H; injection H as <-; cbn; auto.
  - intros H; injection H as <-; cbn; auto.
Qed.

(** X2: two successive configuration updates compose like one update with
    the merged partial configuration: a key present in the later update
    wins, otherwise the earlier update's value, otherwise the previous
    configuration; neither update touches the scheduled frames. *)
Theorem update_twice_merges :
  forall (P : Platform) (fuel : nat) (p q : PartialOptions) (w w1 w2 : World),
    update P fuel p w = Done w1 ->
    update P fuel q w1 = Done w2 ->
    options (marquee w2) = spread (options (marquee w)) (mergePartial p q)
    /\ window w2 = window w
    /\ animationId (marquee w2) = animationId (marquee w).
Proof.
  intros P fuel p q w w1 w2 H1 H2.
  destruct (@update_options P fuel p w w1 H1) as (Ho1 & Hw1 & Ha1).
  destruct (@update_options P fuel q w1 w2 H2) as (Ho2 & Hw2 & Ha2).
  rewrite Ho2, Ho1, Hw2, Hw1, Ha2, Ha1, spread_spread; auto.
Qed.

Lemma update_twice_merges_witness :
  options
    (marquee
       (stateOf
          (update (scenarioPlatform 1000 200 false) 10
             (scenarioOptions true 0 3)
             (stateOf
                (update (scenarioPlatform 1000 200 false) 10
                   (scenarioOptions false 20 5) (freshWorld emptyPartial))
                (freshWorld emptyPartial)))
          (freshWorld emptyPartial)))
  = spread (options (marquee (freshWorld emptyPartial)))
           (mergePartial (scenarioOptions false 20 5)
                         (scenarioOptions true 0 3)).
Proof.
  exact (proj1 (@update_twice_merges
                  (scenarioPlatform 1000 200 false) 10%nat
                  (scenarioOptions false 20 5) (scenarioOptions true 0 3)
                  (freshWorld emptyPartial) _ _
                  ltac:(vm_compute; reflexivity)
                  ltac:(vm_compute; reflexivity))).
Defined.

(** ** Starting and stopping *)

(** X3: [startAnimation] and [stopAnimation] are idempotent: a second
    [startAnimation] never schedules a second frame, and a second
    [stopAnimation] changes nothing. *)
Theorem start_and_stop_are_idempotent :
  forall w : World,
    startAnimation (startAnimation w) = startAnimation w
    /\ stopAnimation (stopAnimation w) = stopAnimation w.
Proof.
  intros [win c]; unfold startAnimation, stopAnimation; cbn [marquee window].
  destruct (animationId c) as [[|k]|] eqn:E; cbn; rewrite ?E; auto.
Qed.

Lemma filter_fresh (n : nat) (l : list nat) :
  Forall (fun k => (k <= n)%nat) l ->
  filter (fun k => negb (Nat.eqb k (S n))) l = l.
Proof.
  induction 1 as [|k l Hk _ IH]; cbn [filter]; [reflexivity|].
  destruct (Nat.eqb_spec k (S n)); [lia|].
  cbn [negb]; rewrite IH; reflexivity.
Qed.

(** X4: on a page whose pending handles were all issued already, stopping
    an engine right after starting it cancels exactly the frame that the
    start scheduled: the pending list is the one from before and the engine
    holds no handle. *)
Theorem stop_cancels_the_started_frame :
  forall w : World,
    truthy (animationId (marquee w)) = false ->
    Forall (fun k => (k <= lastHandle (window w))%nat) (pending (window w)) ->
    pending (window (stopAnimation (startAnimation w))) = pending (window w)
    /\ animationId (marquee (stopAnimation (startAnimation w))) = None.
Proof.
  intros [win c] Hid Hfresh; cbn [marquee window] in *.
  unfold startAnimation; cbn [marquee window]; rewrite Hid.
  cbn [negb requestAnimationFrame]; unfold stopAnimation; cbn.
  split; [|reflexivity].
  rewrite filter_app, (filter_fresh Hfresh); cbn [filter].
  rewrite Nat.eqb_refl; cbn; apply app_nil_r.
Qed.

Lemma stop_cancels_the_started_frame_witness :
  pending (window (stopAnimation (startAnimation (freshWorld emptyPartial))))
  = pending (window (freshWorld emptyPartial)).
Proof.
  exact (proj1 (@stop_cancels_the_started_frame (freshWorld emptyPartial)
                  eq_refl (Forall_nil _))).
Defined.

(** ** Teardown *)

Lemma existsb_filter_out (h : nat) (l : list nat) :
  existsb (Nat.eqb h) (filter (fun k => negb (Nat.eqb k h)) l) = false.
Proof.
  induction l as [|k l IH]; cbn [filter]; [reflexivity|].
  destruct (Nat.eqb_spec k h) as [->|Hne]; cbn [negb]; [exact IH|].
  cbn [existsb]; rewrite IH.
  destruct (Nat.eqb_spec h k); [congruence|reflexivity].
Qed.

(** X5: [destroy] on an engine that holds a frame handle cancels that
    frame, empties the instance collection, drops the context and marks the
    engine uninitialized: the browser finds nothing to run for the old
    handle.  A frame callback that is invoked all the same moves nothing and
    draws nothing, but it does request another frame. *)
Theorem destroy_releases_the_engine :
  forall (P : Platform) (w : World) (h : nat),
    animationId (marquee w) = Some (S h) ->
    ~ In (S h) (pending (window (destroy w)))
    /\ runFrame P (S h) (destroy w) = Done (destroy w)
    /\ instances (marquee (destroy w)) = []
    /\ context (marquee (destroy w)) = None
    /\ isInitialized (marquee (destroy w)) = false
    /\ animationId (marquee (destroy w)) = None
    /\ exists w',
         animate P (destroy w) = Done w'
         /\ instances (marquee w') = []
         /\ ctx2d (canvas (marquee w')) = ctx2d (canvas (marquee (destroy w)))
         /\ In (S (lastHandle (window (destroy w)))) (pending (window w')).
Proof.
  intros P [win c] h Hid; cbn [marquee] in Hid.
  unfold destroy, stopAnimation; cbn [marquee window]; rewrite Hid.
  cbn [marquee window].
  split.
  { unfold cancelAnimationFrame; cbn [pending].
    intros Hin; apply filter_In in Hin; destruct Hin as [_ Hneq].
    rewrite Nat.eqb_refl in Hneq; discriminate. }
  split.
  { unfold runFrame, cancelAnimationFrame; cbn [window pending].
    rewrite existsb_filter_out; reflexivity. }
  repeat (split; [reflexivity|]).
  unfold animate; cbn [requestAnimationFrame window marquee lastHandle pending].
  cbn [canvas set_animationId set_container set_isInitialized set_context
       set_instances].
  destruct (paused (canvas c)).
  - eexists; split; [reflexivity|]; cbn.
    repeat split; apply in_or_app; cbn; auto.
  - unfold updatePositions, draw; cbn.
    destruct (reverse (options c)); cbn;
      (eexists; split; [reflexivity|]; cbn;
       repeat split; apply in_or_app; cbn; auto).
Qed.

Lemma destroy_releases_the_engine_witness :
  runFrame (scenarioPlatform 1000 200 false) 1
    (destroy (initialized (scenarioPlatform 1000 200 false) emptyPartial))
  = Done (destroy (initialized (scenarioPlatform 1000 200 false)
                               emptyPartial)).
Proof.
  exact (proj1 (proj2 (@destroy_releases_the_engine
                         (scenarioPlatform 1000 200 false)
                         (initialized (scenarioPlatform 1000 200 false)
                                      emptyPartial)
                         0%nat ltac:(vm_compute; reflexivity)))).
Defined.

(** ** One frame at a time *)

Lemma animate_window (P : Platform) (w w' : World) :
  (animate P w = Done w' \/ exists e, animate P w = Raised e w') ->
  window w' = mkWindow (S (lastHandle (window w)))
                       (pending (window w) ++ [S (lastHandle (window w))])
  /\ animationId (marquee w') = Some (S (lastHandle (window w))).
Proof.
  unfold animate; cbn [requestAnimationFrame].
  cbn [canvas set_animationId].
  destruct (paused (canvas (marquee w))).
  - intros [H | [e H]]; [|discriminate].
    injection H as <-; cbn; auto.
  - destruct (draw P _) as [c1|e1 c1|] eqn:Hd; intros [H | [e H]];
      try discriminate.
    + injection H as <-.
      destruct (@draw_state P _ _ (or_introl Hd)) as (ctx & ->).
      rewrite updatePositions_animationId; cbn; auto.
    + injection H as _ <-.
      destruct (@draw_state P _ _ (or_intror (ex_intro _ e1 Hd)))
        as (ctx & ->).
      rewrite updatePositions_animationId; cbn; auto.
Qed.

Lemma resetup_keeps (P : Platform) (fuel : nat) (c c1 c2 : MarqueeController) :
  setupCanvas P c = Done c1 ->
  setupTextInstances fuel c1 = Done c2 ->
  animationId c2 = animationId c /\ isInitialized c2 = isInitialized c.
Proof.
  intros H1 H2.
  destruct (@setupCanvas_determined P c c c1 eq_refl H1)
    as (c1' & H1' & _ & _ & _ & Ha & Hi).
  rewrite H1 in H1'; injection H1' as <-.
  unfold setupTextInstances in H2.
  destruct (pushInstances fuel c1 (instancesNeeded c1) 0 []);
    try discriminate.
  injection H2 as <-; cbn; auto.
Qed.

Lemma initialize_starts (P : Platform) (fuel : nat) (w w1 : World) :
  idle w ->
  initialize P fuel w = Done w1 ->
  singleFrame w1 /\ isInitialized (marquee w1) = true.
Proof.
  intros [Hid Hp]; unfold initialize.
  destruct (setupCanvas P (marquee w)) as [c1|e c1|] eqn:H1; try discriminate.
  destruct (setupTextInstances fuel c1) as [c2|e c2|] eqn:H2;
    try discriminate.
  destruct (@resetup_keeps _ _ _ _ _ H1 H2) as [Ha _].
  intros H; injection H as <-.
  unfold startAnimation; cbn [marquee window]; rewrite Ha, Hid.
  cbn; split; [|reflexivity].
  exists (lastHandle (window w)); rewrite Hp; auto.
Qed.

Lemma runFrame_single (P : Platform) (w w' : World) (h : nat) :
  singleFrame w ->
  animationId (marquee w) = Some h ->
  (runFrame P h w = Done w' \/ exists e, runFrame P h w = Raised e w') ->
  singleFrame w' /\ isInitialized (marquee w') = isInitialized (marquee w).
Proof.
  intros (k & Hid & Hp) Hh Hrun.
  rewrite Hid in Hh; injection Hh as <-.
  unfold runFrame in Hrun; rewrite Hp in Hrun.
  cbn [existsb] in Hrun; rewrite Nat.eqb_refl in Hrun; cbn [orb] in Hrun.
  destruct (@animate_window _ _ _ Hrun) as [Hw Ha].
  destruct (@animate_keeps _ _ _ Hrun) as (_ & _ & Hi & _).
  split; [|exact Hi].
  exists (lastHandle (window w)).
  rewrite Ha, Hw; cbn [window marquee lastHandle pending
                         cancelAnimationFrame].
  rewrite Hp; cbn [filter]; rewrite Nat.eqb_refl; cbn; auto.
Qed.

Lemma handleResize_restart (P : Platform) (fuel : nat) (w w' : World) :
  isInitialized (marquee w) = true ->
  handleResize P fuel w = Done w' ->
  animationId (marquee w')
  = Some (S (lastHandle (window (stopAnimation w))))
  /\ pending (window w')
     = pending (window (stopAnimation w))
       ++ [S (lastHandle (window (stopAnimation w)))]
  /\ isInitialized (marquee w') = true.
Proof.
  intros Hi; unfold handleResize; rewrite Hi; cbn [negb].
  assert (Hfalsy : truthy (animationId (marquee (stopAnimation w))) = false).
  { unfold stopAnimation.
    destruct (animationId (marquee w)) as [[|k]|] eqn:E; cbn; rewrite ?E;
      reflexivity. }
  assert (Hi' : isInitialized (marquee (stopAnimation w)) = true).
  { unfold stopAnimation.
    destruct (animationId (marquee w)) as [[|k]|]; cbn; exact Hi. }
  destruct (setupCanvas P (marquee (stopAnimation w))) as [c1|e c1|] eqn:H1;
    try discriminate.
  destruct (setupTextInstances fuel c1) as [c2|e c2|] eqn:H2;
    try discriminate.
  destruct (@resetup_keeps _ _ _ _ _ H1 H2) as [Ha Hi2].
  intros H; injection H as <-.
  unfold startAnimation; cbn [marquee window]; rewrite Ha, Hfalsy.
  cbn; rewrite Hi2; auto.
Qed.

Lemma setupCanvas_flags (P : Platform) (c : MarqueeController) :
  isInitialized (stateOf (setupCanvas P c) c) = isInitialized c
  /\ animationId (stateOf (setupCanvas P c) c) = animationId c.
Proof.
  unfold setupCanvas; destruct (getContext_succeeds P); split; reflexivity.
Qed.

Lemma setupTextInstances_state (fuel : nat) (c c' : MarqueeController) :
  (setupTextInstances fuel c = Done c'
   \/ exists e, setupTextInstances fuel c = Raised e c') ->
  exists l, c' = set_instances l c.
Proof.
  unfold setupTextInstances.
  destruct (pushInstances fuel c (instancesNeeded c) 0 []) as [l|e l|];
    intros [H | [e' H]]; try discriminate.
  - injection H as <-; eauto.
  - injection H as _ <-; eauto.
Qed.

Lemma update_isInitialized (P : Platform) (fuel : nat) (p : PartialOptions)
    (w w' : World) :
  update P fuel p w = Done w' ->
  isInitialized (marquee w') = isInitialized (marquee w).
Proof.
  unfold update; cbn [isInitialized set_options].
  destruct (isInitialized (marquee w)) eqn:Hi.
  - destruct (setupCanvas_flags P
                (set_options (spread (options (marquee w)) p) (marquee w)))
      as [Hf _].
    destruct (setupCanvas P _) as [c1|e c1|]; cbn [stateOf] in Hf;
      try discriminate.
    + destruct (setupTextInstances fuel c1) as [c2|e c2|] eqn:H2;
        try discriminate; intros H; injection H as <-; cbn [marquee].
      * destruct (@setupTextInstances_state _ _ _ (or_introl H2)) as (l & ->).
        cbn; rewrite Hf; exact Hi.
      * destruct (@setupTextInstances_state _ _ _
                    (or_intror (ex_intro _ e H2))) as (l & ->).
        cbn; rewrite Hf; exact Hi.
    + intros H; injection H as <-; cbn [marquee]; rewrite Hf; exact Hi.
  - intros H; injection H as <-; cbn; exact Hi.
Qed.

(** X6: from initialization on an idle page, through any sequence of
    frames (returning normally or not), configuration updates, resizes and
    pause toggles, exactly one animation frame is scheduled and it is the
    one whose handle the engine holds: the cycle is never scheduled twice
    and never lost; the engine stays initialized. *)
Theorem lifecycle_keeps_a_single_frame :
  forall (P : Platform) (fuel : nat) (w0 w1 w : World),
    idle w0 ->
    initialize P fuel w0 = Done w1 ->
    lifecycle w1 w ->
    singleFrame w /\ isInitialized (marquee w) = true.
Proof.
  intros P fuel w0 w1 w Hidle Hinit Hl.
  induction Hl as [w1 | P' w1 w2 w3 h _ IH Hh Hrun
                   | P' fuel' p w1 w2 w3 _ IH Hu
                   | P' fuel' w1 w2 w3 _ IH Hr
                   | w1 w2 b _ IH].
  - exact (@initialize_starts _ _ _ _ Hidle Hinit).
  - destruct (IH Hinit) as [Hs Hi].
    destruct (@runFrame_single _ _ _ _ Hs Hh Hrun) as [Hs' Hi'].
    split; [exact Hs'|rewrite Hi'; exact Hi].
  - destruct (IH Hinit) as [(k & Hid & Hp) Hi].
    destruct (@update_options _ _ _ _ _ Hu) as (_ & Hw & Ha).
    split.
    + exists k; rewrite Ha, Hw; auto.
    + rewrite (@update_isInitialized _ _ _ _ _ Hu); exact Hi.
  - destruct (IH Hinit) as [(k & Hid & Hp) Hi].
    destruct (@handleResize_restart _ _ _ _ Hi Hr) as (Ha & Hpend & Hi').
    split; [|exact Hi'].
    exists (lastHandle (window (stopAnimation w2))).
    rewrite Ha, Hpend; split; [reflexivity|].
    unfold stopAnimation; rewrite Hid; cbn [window pending
                                              cancelAnimationFrame lastHandle].
    rewrite Hp; cbn [filter]; rewrite Nat.eqb_refl; reflexivity.
  - destruct (IH Hinit) as [(k & Hid & Hp) Hi].
    unfold setPaused; cbn; split; [exists k|]; auto.
Qed.

Lemma lifecycle_keeps_a_single_frame_witness :
  singleFrame afterResize /\ isInitialized (marquee afterResize) = true.
Proof.
  assert (Hl : lifecycle (initialized (scenarioPlatform 1000 200 false)
                                      emptyPartial)
                         afterResize).
  { apply (@lifecycle_resize (scenarioPlatform 800 200 false) 64
             (initialized (scenarioPlatform 1000 200 false) emptyPartial)
             afterReconfiguration afterResize);
      [|vm_compute; reflexivity].
    apply (@lifecycle_update (scenarioPlatform 1000 200 false) 64
             (scenarioOptions true 20 5)
             (initialized (scenarioPlatform 1000 200 false) emptyPartial)
             afterFirstFrame afterReconfiguration);
      [|vm_compute; reflexivity].
    apply (@lifecycle_frame (scenarioPlatform 1000 200 false)
             (initialized (scenarioPlatform 1000 200 false) emptyPartial)
             (initialized (scenarioPlatform 1000 200 false) emptyPartial)
             afterFirstFrame 1);
      [apply lifecycle_none|vm_compute; reflexivity
       |left; vm_compute; reflexivity]. }
  exact (@lifecycle_keeps_a_single_frame
           (scenarioPlatform 1000 200 false) 64%nat
           (freshWorld emptyPartial)
           (initialized (scenarioPlatform 1000 200 false) emptyPartial)
           afterResize
           (conj eq_refl eq_refl)
           ltac:(vm_compute; reflexivity)
           Hl).
Defined.

(** ** Resize *)

Lemma stopAnimation_lastHandle (w : World) :
  lastHandle (window (stopAnimation w)) = lastHandle (window w).
Proof.
  unfold stopAnimation; destruct (animationId (marquee w)) as [[|k]|];
    reflexivity.
Qed.

(** The scheduler after a resize: the one request made by the restart. *)
Lemma handleResize_window (P : Platform) (fuel : nat) (w w' : World) :
  isInitialized (marquee w) = true ->
  handleResize P fuel w = Done w' ->
  window w'
  = mkWindow (S (lastHandle (window w)))
             (pending (window (stopAnimation w)) ++ [S (lastHandle (window w))]).
Proof.
  intros Hi; unfold handleResize; rewrite Hi; cbn [negb].
  assert (Hfalsy : truthy (animationId (marquee (stopAnimation w))) = false).
  { unfold stopAnimation.
    destruct (animationId (marquee w)) as [[|k]|] eqn:E; cbn; rewrite ?E;
      reflexivity. }
  destruct (setupCanvas P (marquee (stopAnimation w))) as [c1|e c1|] eqn:H1;
    try discriminate.
  destruct (setupTextInstances fuel c1) as [c2|e c2|] eqn:H2;
    try discriminate.
  destruct (@resetup_keeps _ _ _ _ _ H1 H2) as [Ha _].
  intros H; injection H as <-.
  unfold startAnimation; cbn [marquee window]; rewrite Ha, Hfalsy.
  cbn; rewrite stopAnimation_lastHandle; reflexivity.
Qed.

(** X7: a resize that returns normally always leaves the engine animating:
    whatever frame it held is cancelled and exactly one new frame is
    requested, also when the engine had been stopped before the resize.
    The scheduler has handed out exactly one more handle, the engine holds
    it, and the pending frames are those left by the cancellation followed
    by that one; when the engine held the only pending frame before, the
    new frame is the only one after. *)
Theorem handleResize_always_restarts :
  forall (P : Platform) (fuel : nat) (w w' : World),
    isInitialized (marquee w) = true ->
    handleResize P fuel w = Done w' ->
    truthy (animationId (marquee w')) = true
    /\ (exists h, animationId (marquee w') = Some h
                  /\ In h (pending (window w'))
                  /\ (lastHandle (window w) < h)%nat)
    /\ (forall k, animationId (marquee w) = Some (S k) ->
                  (S k <= lastHandle (window w))%nat ->
                  ~ In (S k) (pending (window w')))
    /\ animationId (marquee w') = Some (S (lastHandle (window w)))
    /\ lastHandle (window w') = S (lastHandle (window w))
    /\ pending (window w')
       = match animationId (marquee w) with
         | Some (S k) =>
             filter (fun j => negb (Nat.eqb j (S k))) (pending (window w))
         | _ => pending (window w)
         end ++ [S (lastHandle (window w))]
    /\ (singleFrame w -> pending (window w') = [S (lastHandle (window w))]).
Proof.
  intros P fuel w w' Hi Hr.
  destruct (@handleResize_restart _ _ _ _ Hi Hr) as (Ha & Hp & _).
  pose proof (@handleResize_window _ _ _ _ Hi Hr) as Hw.
  rewrite stopAnimation_lastHandle in Ha, Hp.
  split; [rewrite Ha; reflexivity|]; split.
  { exists (S (lastHandle (window w))); rewrite Hp.
    split; [exact Ha|]; split; [apply in_or_app; cbn; auto|lia]. }
  split.
  { intros k Hk Hle Hin; rewrite Hp in Hin.
    apply in_app_or in Hin; destruct Hin as [Hin | [Heq | []]]; [|lia].
    unfold stopAnimation in Hin; rewrite Hk in Hin.
    cbn [window pending cancelAnimationFrame] in Hin.
    apply filter_In in Hin; destruct Hin as [_ Hne].
    rewrite Nat.eqb_refl in Hne; discriminate. }
  split; [exact Ha|].
  split; [rewrite Hw; reflexivity|].
  assert (Hpend : pending (window w')
                  = match animationId (marquee w) with
                    | Some (S k) =>
                        filter (fun j => negb (Nat.eqb j (S k)))
                               (pending (window w))
                    | _ => pending (window w)
                    end ++ [S (lastHandle (window w))]).
  { rewrite Hp; unfold stopAnimation.
    destruct (animationId (marquee w)) as [[|k]|]; reflexivity. }
  split; [exact Hpend|].
  intros (h & Hid & Hone); rewrite Hpend, Hid, Hone.
  cbn [filter]; rewrite Nat.eqb_refl; reflexivity.
Qed.

Lemma handleResize_always_restarts_witness :
  pending
    (window
       (stateOf
          (handleResize (scenarioPlatform 800 200 false) 10
             (initialized (scenarioPlatform 1000 200 false) emptyPartial))
          (freshWorld emptyPartial)))
  = [S (lastHandle
          (window (initialized (scenarioPlatform 1000 200 false)
                               emptyPartial)))].
Proof.
  destruct (@handleResize_always_restarts
              (scenarioPlatform 800 200 false) 10%nat
              (initialized (scenarioPlatform 1000 200 false) emptyPartial)
              (stateOf
                 (handleResize (scenarioPlatform 800 200 false) 10
                    (initialized (scenarioPlatform 1000 200 false)
                                 emptyPartial))
                 (freshWorld emptyPartial))
              ltac:(vm_compute; reflexivity)
              ltac:(vm_compute; reflexivity))
    as (_ & _ & _ & _ & _ & _ & Hone).
  apply Hone; exists 0%nat; vm_compute; split; reflexivity.
Defined.

(** ** When no drawing context can be obtained *)

Lemma setupCanvas_without_context (P : Platform) (c : MarqueeController) :
  getContext_succeeds P = false ->
  exists c',
    setupCanvas P c = Raised NoContext c'
    /\ context c' = None
    /\ instances c' = instances c
    /\ options c' = options c
    /\ animationId c' = animationId c
    /\ isInitialized c' = isInitialized c
    /\ textWidth c' = textWidth c
    /\ effectiveTextWidth c' = effectiveTextWidth c.
Proof.
  intros H; unfold setupCanvas; rewrite H.
  eexists; split; [reflexivity|]; cbn; repeat split.
Qed.

(** X8: when the canvas yields no 2D context, [initialize] raises the
    error to its caller: no frame is scheduled, the engine holds no new
    handle, it is not marked initialized and no instance is built. *)
Theorem initialize_without_context :
  forall (P : Platform) (fuel : nat) (w : World),
    getContext_succeeds P = false ->
    exists w',
      initialize P fuel w = Raised NoContext w'
      /\ window w' = window w
      /\ animationId (marquee w') = animationId (marquee w)
      /\ isInitialized (marquee w') = isInitialized (marquee w)
      /\ instances (marquee w') = instances (marquee w)
      /\ context (marquee w') = None.
Proof.
  intros P fuel w H.
  destruct (@setupCanvas_without_context P (marquee w) H)
    as (c' & Hs & Hc & Hin & _ & Ha & Hi & _).
  unfold initialize; rewrite Hs.
  eexists; split; [reflexivity|]; cbn; auto.
Qed.

Lemma initialize_without_context_witness :
  exists w',
    initialize contextlessPlatform 10 (freshWorld emptyPartial)
    = Raised NoContext w'
    /\ window w' = window (freshWorld emptyPartial).
Proof.
  destruct (@initialize_without_context contextlessPlatform 10%nat
              (freshWorld emptyPartial) eq_refl) as (w' & H & Hw & _).
  exists w'; split; [exact H|exact Hw].
Defined.

(** X9: when the canvas yields no 2D context during a resize of an
    initialized engine, [handleResize] raises after it has stopped the
    animation and does not restart it: the engine holds no handle, its old
    frame is no longer pending, and it keeps its old instances and stays
    marked initialized. *)
Theorem handleResize_without_context :
  forall (P : Platform) (fuel : nat) (w : World),
    getContext_succeeds P = false ->
    isInitialized (marquee w) = true ->
    exists w',
      handleResize P fuel w = Raised NoContext w'
      /\ truthy (animationId (marquee w')) = false
      /\ (forall k, animationId (marquee w) = Some (S k) ->
                    ~ In (S k) (pending (window w')))
      /\ (forall k, In k (pending (window w')) -> In k (pending (window w)))
      /\ instances (marquee w') = instances (marquee w)
      /\ isInitialized (marquee w') = true
      /\ context (marquee w') = None.
Proof.
  intros P fuel w H Hi.
  destruct (@setupCanvas_without_context P (marquee (stopAnimation w)) H)
    as (c' & Hs & Hc & Hin & _ & Ha & Hi' & _).
  unfold handleResize; rewrite Hi; cbn [negb]; rewrite Hs.
  eexists; split; [reflexivity|]; cbn [marquee window].
  rewrite Ha, Hin, Hi', Hc; unfold stopAnimation.
  destruct (animationId (marquee w)) as [[|k]|] eqn:E; cbn; rewrite ?E;
    repeat split; auto; try discriminate.
  - intros k' Hk Hin'; injection Hk as <-.
    apply filter_In in Hin'; destruct Hin' as [_ Hne].
    rewrite Nat.eqb_refl in Hne; discriminate.
  - intros k'; apply filter_subset.
Qed.

Lemma handleResize_without_context_witness :
  exists w',
    handleResize contextlessPlatform 10
      (initialized (scenarioPlatform 1000 200 false) emptyPartial)
    = Raised NoContext w'
    /\ truthy (animationId (marquee w')) = false.
Proof.
  destruct (@handleResize_without_context contextlessPlatform 10%nat
              (initialized (scenarioPlatform 1000 200 false) emptyPartial)
              eq_refl ltac:(vm_compute; reflexivity))
    as (w' & H & Ht & _).
  exists w'; split; [exact H|exact Ht].
Defined.

(** X10: when the canvas yields no 2D context during a configuration
    update of an initialized engine, [update] swallows the error and
    returns normally: the configuration is merged, the scheduled frame and
    the old instances are kept, but the engine has lost its context, so
    every later [draw] is a no-op that issues no drawing call. *)
Theorem update_without_context :
  forall (P : Platform) (fuel : nat) (p : PartialOptions) (w : World),
    getContext_succeeds P = false ->
    isInitialized (marquee w) = true ->
    exists w',
      update P fuel p w = Done w'
      /\ options (marquee w') = spread (options (marquee w)) p
      /\ window w' = window w
      /\ animationId (marquee w') = animationId (marquee w)
      /\ instances (marquee w') = instances (marquee w)
      /\ context (marquee w') = None
      /\ forall P', draw P' (marquee w') = Done (marquee w').
Proof.
  intros P fuel p w H Hi.
  destruct (@setupCanvas_without_context P
              (set_options (spread (options (marquee w)) p) (marquee w)) H)
    as (c' & Hs & Hc & Hin & Ho & Ha & _).
  unfold update; cbn [isInitialized set_options]; rewrite Hi, Hs.
  eexists; split; [reflexivity|]; cbn [marquee window].
  rewrite Ho, Ha, Hin, Hc; cbn.
  repeat split; intros P'; unfold draw; rewrite Hc; reflexivity.
Qed.

Lemma update_without_context_witness :
  exists w',
    update contextlessPlatform 10 emptyPartial
      (initialized (scenarioPlatform 1000 200 false) emptyPartial)
    = Done w'
    /\ context (marquee w') = None.
Proof.
  destruct (@update_without_context contextlessPlatform 10%nat emptyPartial
              (initialized (scenarioPlatform 1000 200 false) emptyPartial)
              eq_refl ltac:(vm_compute; reflexivity))
    as (w' & H & _ & _ & _ & _ & Hc & _).
  exists w'; split; [exact H|exact Hc].
Defined.

(** ** Surface setup *)

(** X11: a surface setup applied to the result of a surface setup, on
    an unchanged page, changes nothing: the transform is reset before it is
    scaled, so the scale factor is applied once and is not compounded by
    repeated setups. *)
Theorem setupCanvas_is_idempotent :
  forall (P : Platform) (c c1 : MarqueeController),
    setupCanvas P c = Done c1 ->
    setupCanvas P c1 = Done c1
    /\ transform (ctx2d (canvas c1))
       = (nmul (of_Z 1) (getCurrentPixelRatio P),
          nmul (of_Z 1) (getCurrentPixelRatio P)).
Proof.
  intros P c c1.
  destruct P as [pr anc bd dw mh gc cm fr].
  destruct c as [[cw ch sw sh pz [f fs tb ta tr op]] cx o r ins aid ini co
                   tw th e].
  destruct gc; [|discriminate].
  cbv -[nmul nadd nsub ceil ndiv find suitable of_Z].
  intros H; injection H as <-.
  split; reflexivity.
Qed.

Lemma setupCanvas_is_idempotent_witness :
  setupCanvas (scenarioPlatform 1000 200 false)
    (surfaceReady (scenarioPlatform 1000 200 false) emptyPartial)
  = Done (surfaceReady (scenarioPlatform 1000 200 false) emptyPartial).
Proof.
  exact (proj1 (@setupCanvas_is_idempotent
                  (scenarioPlatform 1000 200 false)
                  (constructor blankCanvas emptyPartial)
                  (surfaceReady (scenarioPlatform 1000 200 false) emptyPartial)
                  ltac:(vm_compute; reflexivity))).
Defined.

(** ** Drawing *)

Lemma fillInstances_quiet_ops (P : Platform) (c : MarqueeController) :
  (forall t a b, fillText_raises P t a b = false) ->
  forall (l : list TextInstance) (ctx : Context2D),
    fillInstances P c (yPosition c) l ctx
    = Done (mkContext (ctx_font ctx) (fillStyle ctx) (textBaseline ctx)
              (textAlign ctx) (transform ctx)
              (ops ctx ++ map (fillTextOf c) (filter (isVisible c) l))).
Proof.
  intros Hq; induction l as [|inst rest IH]; intros ctx;
    cbn [fillInstances filter map].
  - rewrite app_nil_r; destruct ctx; reflexivity.
  - destruct (isVisible c inst); [|apply IH].
    rewrite Hq, IH; cbn [pushOp ctx_font fillStyle textBaseline textAlign
                          transform ops map].
    rewrite <- app_assoc; reflexivity.
Qed.

(** X13: on an engine that has a context, when no drawing call raises,
    one [draw] issues exactly one [clearRect] of the whole logical area
    followed by one [fillText] for each instance that passes the culling
    test, in array order and all at the same vertical position; it sets the
    font, the fill colour and the baseline [top], and leaves the instances
    as they are. *)
Theorem draw_clears_then_fills_visible_instances :
  forall (P : Platform) (c : MarqueeController),
    context c = Some TheContext ->
    (forall t a b, fillText_raises P t a b = false) ->
    exists c',
      draw P c = Done c'
      /\ ops (ctx2d (canvas c'))
         = ops (ctx2d (canvas c))
           ++ ClearRect (of_Z 0) (of_Z 0) (canvasWidth c) (canvasHeight c)
              :: map (fillTextOf c) (filter (isVisible c) (instances c))
      /\ ctx_font (ctx2d (canvas c')) = font (options c)
      /\ fillStyle (ctx2d (canvas c')) = textColor (options c)
      /\ textBaseline (ctx2d (canvas c')) = "top"%string
      /\ instances c' = instances c.
Proof.
  intros P c Hc Hq; unfold draw; rewrite Hc.
  rewrite (@fillInstances_quiet_ops P c Hq).
  eexists; split; [reflexivity|]; cbn.
  rewrite <- app_assoc; repeat split.
Qed.

Lemma draw_clears_then_fills_visible_instances_witness :
  exists c',
    draw (scenarioPlatform 1000 200 false)
         (marquee (initialized (scenarioPlatform 1000 200 false) emptyPartial))
    = Done c'
    /\ instances c'
       = instances (marquee (initialized (scenarioPlatform 1000 200 false)
                                         emptyPartial)).
Proof.
  destruct (@draw_clears_then_fills_visible_instances
              (scenarioPlatform 1000 200 false)
              (marquee (initialized (scenarioPlatform 1000 200 false)
                                    emptyPartial))
              ltac:(vm_compute; reflexivity)
              (fun _ _ _ => eq_refl))
    as (c' & H & _ & _ & _ & _ & Hi).
  exists c'; split; [exact H|exact Hi].
Defined.

(** ** Passes without a recycle *)

Lemma forEachInstance_uniform
    (callback : list TextInstance -> TextInstance -> list TextInstance
                -> TextInstance)
    (g : TextInstance -> TextInstance) :
  forall (todo before : list TextInstance),
    (forall inst, In inst todo ->
                  forall b a, callback b inst a = g inst) ->
    forEachInstance callback before todo = before ++ map g todo.
Proof.
  induction todo as [|inst after IH]; intros before Hg;
    cbn [forEachInstance map].
  - rewrite app_nil_r; reflexivity.
  - rewrite IH by (intros i Hi; apply Hg; right; exact Hi).
    rewrite Hg by (left; reflexivity).
    rewrite <- app_assoc; reflexivity.
Qed.

Lemma updatePositions_uniform (c : MarqueeController) :
  (forall inst, In inst (instances c) ->
                leavesView c (advance c (x inst)) = false) ->
  instances (updatePositions c)
  = map (fun inst => set_x inst (advance c (x inst))) (instances c).
Proof.
  intros Hstay; unfold updatePositions, advance, leavesView in *.
  destruct (reverse (options c)); cbn [instances set_instances].
  - apply (@forEachInstance_uniform (stepReverse c)
             (fun inst => set_x inst (nsub (x inst) (speed (options c))))).
    intros inst Hin b a; unfold stepReverse; cbn [x set_x].
    rewrite (Hstay inst Hin); reflexivity.
  - apply (@forEachInstance_uniform (stepForward c)
             (fun inst => set_x inst (nadd (x inst) (speed (options c))))).
    intros inst Hin b a; unfold stepForward; cbn [x set_x].
    rewrite (Hstay inst Hin); reflexivity.
Qed.

(** X14: when no instance, once moved, satisfies the recycle test, a
    position update is a pure translation: every instance moves by exactly
    one speed step in the direction of motion, in place, and nothing else
    changes, so the tiling keeps its shape. *)
Theorem updatePositions_without_recycle_translates :
  forall c : MarqueeController,
    (forall inst, In inst (instances c) ->
                  leavesView c (advance c (x inst)) = false) ->
    instances (updatePositions c)
    = map (fun inst => set_x inst (advance c (x inst))) (instances c).
Proof. exact updatePositions_uniform. Qed.

Lemma updatePositions_without_recycle_translates_witness :
  instances (updatePositions twoInstances)
  = map (fun inst => set_x inst (advance twoInstances (x inst)))
        (instances twoInstances).
Proof.
  apply (@updatePositions_without_recycle_translates twoInstances).
  intros inst [<- | [<- | []]]; vm_compute; reflexivity.
Defined.

(** X15: a position update never changes how many instances there are,
    nor the width or the index of any instance; it only writes positions. *)
Theorem updatePositions_only_writes_positions :
  forall c : MarqueeController,
    List.length (instances (updatePositions c)) = List.length (instances c)
    /\ map width (instances (updatePositions c)) = map width (instances c)
    /\ map index (instances (updatePositions c)) = map index (instances c)
    /\ updatePositions c = set_instances (instances (updatePositions c)) c.
Proof.
  intros c; destruct (updatePositions_keeps c) as [Hw Hi].
  split; [|split; [exact Hw|split; [exact Hi|]]].
  - rewrite <- (length_map width), Hw, length_map; reflexivity.
  - unfold updatePositions; destruct (reverse (options c)); reflexivity.
Qed.

(** ** A speed that is not a number *)

Lemma nadd_NaN_r (v : num) : nadd v NaN = NaN.
Proof. destruct v; reflexivity. Qed.

Lemma nsub_NaN_r (v : num) : nsub v NaN = NaN.
Proof. destruct v; reflexivity. Qed.

Lemma nlt_NaN_r (v : num) : nlt v NaN = false.
Proof. destruct v; reflexivity. Qed.

(** X16: when the configured speed is [NaN] (what [parseInt] gives for a
    non-numeric attribute), one position update turns every position into
    [NaN]; no instance is recycled, none passes the culling test, and a
    [draw] then issues its [clearRect] and no [fillText]: the surface stays
    blank while the cycle keeps running. *)
Theorem speed_NaN_blanks_the_surface :
  forall (P : Platform) (c : MarqueeController),
    speed (options c) = NaN ->
    instances (updatePositions c)
    = map (fun inst => set_x inst NaN) (instances c)
    /\ (forall inst, In inst (instances (updatePositions c)) ->
                     isVisible (updatePositions c) inst = false)
    /\ (context c = Some TheContext ->
        exists c',
          draw P (updatePositions c) = Done c'
          /\ ops (ctx2d (canvas c'))
             = ops (ctx2d (canvas c))
               ++ [ClearRect (of_Z 0) (of_Z 0) (canvasWidth c)
                             (canvasHeight c)]).
Proof.
  intros P c Hs.
  assert (Hadv : forall v, advance c v = NaN).
  { intros v; unfold advance; rewrite Hs.
    destruct (reverse (options c)); [apply nsub_NaN_r|apply nadd_NaN_r]. }
  assert (Hstay : leavesView c NaN = false).
  { unfold leavesView, ngt; destruct (reverse (options c));
      [reflexivity|apply nlt_NaN_r]. }
  assert (Hup : instances (updatePositions c)
                = map (fun inst => set_x inst NaN) (instances c)).
  { rewrite updatePositions_uniform.
    - apply map_ext; intros inst; rewrite Hadv; reflexivity.
    - intros inst _; rewrite Hadv; exact Hstay. }
  assert (Hvis : forall inst, In inst (instances (updatePositions c)) ->
                              isVisible (updatePositions c) inst = false).
  { intros inst Hin; rewrite Hup in Hin; apply in_map_iff in Hin.
    destruct Hin as (i & <- & _).
    rewrite isVisible_updatePositions; unfold isVisible; cbn [x set_x].
    reflexivity. }
  split; [exact Hup|]; split; [exact Hvis|].
  intros Hc; unfold draw.
  replace (context (updatePositions c)) with (context c)
    by (unfold updatePositions; destruct (reverse (options c)); reflexivity).
  rewrite Hc.
  assert (Hfill : forall l ctx,
             (forall inst, In inst l ->
                           isVisible (updatePositions c) inst = false) ->
             fillInstances P (updatePositions c)
               (yPosition (updatePositions c)) l ctx = Done ctx).
  { induction l as [|i l IH]; intros ctx Hl; cbn [fillInstances];
      [reflexivity|].
    rewrite (Hl i (or_introl eq_refl)); apply IH.
    intros j Hj; apply Hl; right; exact Hj. }
  rewrite (Hfill _ _ Hvis).
  eexists; split; [reflexivity|].
  unfold updatePositions, canvasWidth, canvasHeight;
    destruct (reverse (options c)); reflexivity.
Qed.

Lemma speed_NaN_blanks_the_surface_witness :
  instances
    (updatePositions
       (set_options
          (spread (options (surfaceReady (scenarioPlatform 1000 200 false)
                                         emptyPartial))
                  (mkPartial None None None None None None (Some NaN) None))
          (marquee (initialized (scenarioPlatform 1000 200 false)
                                emptyPartial))))
  = map (fun inst => set_x inst NaN)
        (instances
           (set_options
              (spread (options (surfaceReady (scenarioPlatform 1000 200 false)
                                             emptyPartial))
                      (mkPartial None None None None None None (Some NaN) None))
              (marquee (initialized (scenarioPlatform 1000 200 false)
                                    emptyPartial)))).
Proof.
  exact (proj1 (@speed_NaN_blanks_the_surface
                  (scenarioPlatform 1000 200 false)
                  (set_options
                     (spread
                        (options (surfaceReady
                                    (scenarioPlatform 1000 200 false)
                                    emptyPartial))
                        (mkPartial None None None None None None (Some NaN)
                                   None))
                     (marquee (initialized (scenarioPlatform 1000 200 false)
                                           emptyPartial)))
                  eq_refl)).
Defined.

(** ** Where a recycled instance lands *)

Lemma nlt_Fin_true (a b : Q) : nlt (Fin a) (Fin b) = true -> a < b.
Proof.
  cbn [nlt]; destruct (a ?= b) eqn:E; try discriminate.
  intros _; apply Qlt_alt; exact E.
Qed.

Lemma nlt_Fin_false (a b : Q) : nlt (Fin a) (Fin b) = false -> b <= a.
Proof.
  cbn [nlt]; destruct (a ?= b) eqn:E; try discriminate; intros _.
  - apply Qeq_alt in E; rewrite E; apply Qle_refl.
  - apply Qlt_le_weak, Qgt_alt; exact E.
Qed.

Section Extreme.
Variable better : num -> num -> bool.
Variable R : Q -> Q -> Prop.
Hypothesis better_true : forall a b, better (Fin a) (Fin b) = true -> R a b.
Hypothesis better_false : forall a b, better (Fin a) (Fin b) = false -> R b a.
Hypothesis R_trans : forall a b c, R a b -> R b c -> R a c.

Lemma reduceExtreme_is_extreme :
  forall (arr : list TextInstance) (m : TextInstance) (qm : Q),
    x m = Fin qm ->
    (forall a, In a arr -> finite a) ->
    exists qr,
      x (reduceExtreme better arr m) = Fin qr
      /\ (reduceExtreme better arr m = m \/ In (reduceExtreme better arr m) arr)
      /\ R qr qm
      /\ forall a qa, In a arr -> x a = Fin qa -> R qr qa.
Proof.
  assert (R_refl : forall a, R a a).
  { intros a; destruct (better (Fin a) (Fin a)) eqn:E;
      [apply better_true|apply better_false]; exact E. }
  unfold reduceExtreme.
  induction arr as [|i arr IH]; intros m qm Hm Hfin; cbn [fold_left].
  - exists qm; split; [exact Hm|]; split; [left; reflexivity|].
    split; [apply R_refl|intros a qa []].
  - destruct (Hfin i (or_introl eq_refl)) as (qi & Hi).
    assert (Hfin' : forall a, In a arr -> finite a)
      by (intros a Ha; apply Hfin; right; exact Ha).
    rewrite Hi, Hm.
    destruct (better (Fin qi) (Fin qm)) eqn:E.
    + destruct (IH i qi Hi Hfin') as (qr & Hr & Hwhere & Hri & Hall).
      exists qr; split; [exact Hr|]; split; [|split].
      * destruct Hwhere as [-> | Hin]; right; cbn; auto.
      * apply R_trans with (b := qi); [exact Hri|].
        apply better_true; exact E.
      * intros a qa [<- | Ha] Hqa.
        -- rewrite Hi in Hqa; injection Hqa as <-; exact Hri.
        -- exact (Hall a qa Ha Hqa).
    + destruct (IH m qm Hm Hfin') as (qr & Hr & Hwhere & Hrm & Hall).
      exists qr; split; [exact Hr|]; split; [|split].
      * destruct Hwhere as [-> | Hin]; [left; reflexivity|right; cbn; auto].
      * exact Hrm.
      * intros a qa [<- | Ha] Hqa.
        -- rewrite Hi in Hqa; injection Hqa as <-.
           apply R_trans with (b := qm); [exact Hrm|].
           apply better_false; exact E.
        -- exact (Hall a qa Ha Hqa).
Qed.
End Extreme.

Lemma leftmost_is_minimal (arr : list TextInstance) (m : TextInstance)
    (qm : Q) :
  x m = Fin qm ->
  (forall a, In a arr -> finite a) ->
  exists qr,
    x (reduceExtreme nlt arr m) = Fin qr
    /\ (reduceExtreme nlt arr m = m \/ In (reduceExtreme nlt arr m) arr)
    /\ qr <= qm
    /\ forall a qa, In a arr -> x a = Fin qa -> qr <= qa.
Proof.
  apply (@reduceExtreme_is_extreme nlt Qle).
  - intros a b H; apply Qlt_le_weak, nlt_Fin_true; exact H.
  - intros a b H; apply nlt_Fin_false; exact H.
  - intros a b c; apply Qle_trans.
Qed.

Lemma rightmost_is_maximal (arr : list TextInstance) (m : TextInstance)
    (qm : Q) :
  x m = Fin qm ->
  (forall a, In a arr -> finite a) ->
  exists qr,
    x (reduceExtreme ngt arr m) = Fin qr
    /\ (reduceExtreme ngt arr m = m \/ In (reduceExtreme ngt arr m) arr)
    /\ qm <= qr
    /\ forall a qa, In a arr -> x a = Fin qa -> qa <= qr.
Proof.
  apply (@reduceExtreme_is_extreme ngt (fun a b => b <= a)).
  - intros a b H; apply Qlt_le_weak, nlt_Fin_true; exact H.
  - intros a b H; apply nlt_Fin_false; exact H.
  - intros a b c Hab Hbc; apply Qle_trans with (y := b); assumption.
Qed.

(** X17: with finite positions, speed and tile width, an instance that is
    recycled during a pass is placed exactly one effective tile width
    beyond the extreme position of the whole array as it stands at that
    moment (elements before it already moved, elements after it not yet):
    in forward motion one tile width left of the least position, in reverse
    motion one tile width right of the greatest. *)
Theorem recycled_instance_lands_beyond_the_extreme :
  forall (c : MarqueeController) (before after : list TextInstance)
         (inst : TextInstance) (e s : Q),
    effectiveTextWidth c = Fin e ->
    speed (options c) = Fin s ->
    (forall a, In a (before ++ inst :: after) -> finite a) ->
    (ngt (nadd (x inst) (speed (options c))) (canvasWidth c) = true ->
     exists m qm,
       In m (before ++ set_x inst (nadd (x inst) (speed (options c))) :: after)
       /\ x m = Fin qm
       /\ x (stepForward c before inst after) = Fin (Qred (qm - e))
       /\ forall a qa,
           In a (before ++ set_x inst (nadd (x inst) (speed (options c)))
                        :: after) ->
           x a = Fin qa -> qm <= qa)
    /\ (nlt (nadd (nsub (x inst) (speed (options c))) (textWidth c)) (of_Z 0)
        = true ->
        exists m qm,
          In m (before ++ set_x inst (nsub (x inst) (speed (options c)))
                       :: after)
          /\ x m = Fin qm
          /\ x (stepReverse c before inst after) = Fin (Qred (qm + e))
          /\ forall a qa,
              In a (before ++ set_x inst (nsub (x inst) (speed (options c)))
                           :: after) ->
              x a = Fin qa -> qa <= qm).
Proof.
  intros c before after inst e s He Hs Hfin.
  assert (Hinst : finite inst)
    by (apply Hfin, in_or_app; right; left; reflexivity).
  destruct Hinst as (qi & Hqi).
  assert (Harr : forall moved,
             finite moved ->
             forall a, In a (before ++ moved :: after) -> finite a).
  { intros moved Hm a Ha; apply in_app_or in Ha.
    destruct Ha as [Ha | [<- | Ha]]; [|exact Hm|];
      apply Hfin; apply in_or_app; cbn; auto. }
  assert (Hhd : forall moved,
             finite moved ->
             In (hd moved (before ++ moved :: after))
                (before ++ moved :: after)).
  { intros moved _; destruct before; cbn; auto. }
  split; intros Htest.
  - unfold stepForward; cbv zeta; cbn [x set_x]; rewrite Htest.
    set (moved := set_x inst (nadd (x inst) (speed (options c)))).
    assert (Hmoved : finite moved)
      by (unfold moved, finite; cbn [x set_x]; rewrite Hqi, Hs; cbn; eauto).
    destruct (Harr moved Hmoved _ (Hhd moved Hmoved)) as (qh & Hqh).
    destruct (@leftmost_is_minimal _ _ _ Hqh (Harr moved Hmoved))
      as (qr & Hr & Hwhere & _ & Hall).
    exists (reduceExtreme nlt (before ++ moved :: after)
                          (hd moved (before ++ moved :: after))), qr.
    split; [destruct Hwhere as [-> | Hin]; auto|].
    split; [exact Hr|]; split; [|exact Hall].
    cbn [x set_x]; rewrite Hr, He; reflexivity.
  - unfold stepReverse; cbv zeta; cbn [x set_x]; rewrite Htest.
    set (moved := set_x inst (nsub (x inst) (speed (options c)))).
    assert (Hmoved : finite moved)
      by (unfold moved, finite; cbn [x set_x]; rewrite Hqi, Hs; cbn; eauto).
    destruct (Harr moved Hmoved _ (Hhd moved Hmoved)) as (qh & Hqh).
    destruct (@rightmost_is_maximal _ _ _ Hqh (Harr moved Hmoved))
      as (qr & Hr & Hwhere & _ & Hall).
    exists (reduceExtreme ngt (before ++ moved :: after)
                          (hd moved (before ++ moved :: after))), qr.
    split; [destruct Hwhere as [-> | Hin]; auto|].
    split; [exact Hr|]; split; [|exact Hall].
    cbn [x set_x]; rewrite Hr, He; reflexivity.
Qed.

Lemma recycled_instance_lands_beyond_the_extreme_witness :
  exists m qm,
    In m ([mkInstance (of_Z 0) (of_Z 200) 0]
            ++ set_x (mkInstance (of_Z 998) (of_Z 200) 1)
                     (nadd (x (mkInstance (of_Z 998) (of_Z 200) 1))
                           (speed (options twoInstances)))
            :: [])
    /\ x m = Fin qm
    /\ x (stepForward twoInstances [mkInstance (of_Z 0) (of_Z 200) 0]
            (mkInstance (of_Z 998) (of_Z 200) 1) [])
       = Fin (Qred (qm - 220))
    /\ forall a qa,
        In a ([mkInstance (of_Z 0) (of_Z 200) 0]
                ++ set_x (mkInstance (of_Z 998) (of_Z 200) 1)
                         (nadd (x (mkInstance (of_Z 998) (of_Z 200) 1))
                               (speed (options twoInstances)))
                :: []) ->
        x a = Fin qa -> qm <= qa.
Proof.
  refine (proj1 (@recycled_instance_lands_beyond_the_extreme
                   twoInstances [mkInstance (of_Z 0) (of_Z 200) 0] []
                   (mkInstance (of_Z 998) (of_Z 200) 1) 220 5
                   eq_refl eq_refl _) eq_refl).
  intros a [<- | [<- | []]]; eexists; reflexivity.
Defined.

(** ** What the initial tiling covers *)

Lemma seed_forward_value (c : MarqueeController) (e : Q) (i : nat) :
  reverse (options c) = false ->
  effectiveTextWidth c = Fin e ->
  exists q, x (seedInstance c i) = Fin q
            /\ q == (inject_Z (Z.of_nat i) - 1) * e.
Proof.
  intros Hr He; unfold seedInstance; rewrite Hr, He; cbn [x nmul nsub of_nat of_Z].
  eexists; split; [reflexivity|].
  rewrite !Qred_correct; ring.
Qed.

Lemma seed_reverse_value (c : MarqueeController) (cw e : Q) (i : nat) :
  reverse (options c) = true ->
  canvasWidth c = Fin cw ->
  effectiveTextWidth c = Fin e ->
  exists q, x (seedInstance c i) = Fin q
            /\ q == cw + inject_Z (Z.of_nat i) * e.
Proof.
  intros Hr Hw He; unfold seedInstance; rewrite Hr, Hw, He.
  cbn [x nmul nadd of_nat of_Z].
  eexists; split; [reflexivity|].
  rewrite !Qred_correct; ring.
Qed.

(** X18: in forward motion the initial tiling leaves no gap in the visible
    range: for a positive effective tile width, every point of
    [0, logical width) lies in the tile [x, x + tile width) of one of the
    instances that the build loop creates. *)
Theorem forward_tiling_covers_the_surface :
  forall (c : MarqueeController) (cw e : Q),
    reverse (options c) = false ->
    canvasWidth c = Fin cw ->
    effectiveTextWidth c = Fin e ->
    0 < e ->
    forall fuel,
      (Z.to_nat (Qceiling (cw / e) + 4) < fuel)%nat ->
      exists c',
        setupTextInstances fuel c = Done c'
        /\ forall p : Q,
            0 <= p -> p < cw ->
            exists inst q,
              In inst (instances c')
              /\ x inst = Fin q /\ q <= p /\ p < q + e.
Proof.
  intros c cw e Hr Hw He Hpos fuel Hf.
  assert (Hnz : ~ e == 0) by (intros Hz; rewrite Hz in Hpos; discriminate).
  rewrite (@setupTextInstances_finite c cw e Hw He Hnz fuel Hf).
  eexists; split; [reflexivity|]; cbn [instances set_instances].
  intros p Hp0 Hpw.
  set (k := Qfloor (p / e)).
  assert (Hk0 : (0 <= k)%Z).
  { unfold k; rewrite <- (Qfloor_Z 0); apply Qfloor_resp_le.
    apply Qdiv_nonneg; assumption. }
  assert (Hkle : inject_Z k <= p / e) by apply Qfloor_le.
  assert (Hklt : p / e < inject_Z (k + 1)) by apply Qlt_floor.
  assert (Hkc : (k < Qceiling (cw / e))%Z).
  { rewrite Zlt_Qlt.
    apply Qle_lt_trans with (y := p / e); [exact Hkle|].
    apply Qlt_le_trans with (y := cw / e); [|apply Qle_ceiling].
    apply Qlt_shift_div_l; [exact Hpos|].
    setoid_replace (p / e * e) with p by (field; exact Hnz); exact Hpw. }
  destruct (@seed_forward_value c e (Z.to_nat (k + 1)) Hr He) as (q & Hq & Hqv).
  exists (seedInstance c (Z.to_nat (k + 1))), q.
  split.
  { apply in_map, in_seq; lia. }
  split; [exact Hq|].
  rewrite Z2Nat.id in Hqv by lia.
  rewrite inject_Z_plus in Hqv, Hklt.
  split; rewrite Hqv.
  - setoid_replace ((inject_Z k + inject_Z 1 - 1) * e) with (inject_Z k * e)
      by ring.
    setoid_replace p with (p / e * e) at 1 by (field; exact Hnz).
    apply Qmult_le_r; [exact Hpos|exact Hkle].
  - setoid_replace ((inject_Z k + inject_Z 1 - 1) * e + e)
      with ((inject_Z k + inject_Z 1) * e) by ring.
    setoid_replace p with (p / e * e) at 1 by (field; exact Hnz).
    apply Qmult_lt_r; [exact Hpos|exact Hklt].
Qed.

Lemma forward_tiling_covers_the_surface_witness :
  exists c',
    setupTextInstances 10
      (surfaceReady (scenarioPlatform 1000 200 false)
                    (scenarioOptions false 20 2)) = Done c'.
Proof.
  destruct (@forward_tiling_covers_the_surface
              (surfaceReady (scenarioPlatform 1000 200 false)
                            (scenarioOptions false 20 2))
              1000 220 eq_refl eq_refl eq_refl eq_refl
              10%nat ltac:(vm_compute; lia))
    as (c' & H & _).
  exists c'; exact H.
Defined.

(** X19: in reverse motion the initial tiling lies entirely to the right
    of the visible range: for a positive effective tile width and a
    non-negative logical width the collection is not empty and no instance that the build loop creates passes the culling test, so a
    [draw] before the first position update shows no text. *)
Theorem reverse_tiling_starts_out_of_view :
  forall (c : MarqueeController) (cw e : Q),
    reverse (options c) = true ->
    canvasWidth c = Fin cw ->
    effectiveTextWidth c = Fin e ->
    0 < e -> 0 <= cw ->
    forall fuel,
      (Z.to_nat (Qceiling (cw / e) + 4) < fuel)%nat ->
      exists c',
        setupTextInstances fuel c = Done c'
        /\ instances c' <> []
        /\ forall inst, In inst (instances c') -> isVisible c' inst = false.
Proof.
  intros c cw e Hr Hw He Hpos Hcw fuel Hf.
  assert (Hnz : ~ e == 0) by (intros Hz; rewrite Hz in Hpos; discriminate).
  rewrite (@setupTextInstances_finite c cw e Hw He Hnz fuel Hf).
  eexists; split; [reflexivity|]; cbn [instances set_instances].
  split.
  { pose proof (Qceiling_nonneg (Qdiv_nonneg Hcw Hpos)).
    destruct (Z.to_nat (Qceiling (cw / e) + 4)) eqn:E; [lia|discriminate]. }
  intros inst Hin; apply in_map_iff in Hin.
  destruct Hin as (i & <- & _).
  destruct (@seed_reverse_value c cw e i Hr Hw He) as (q & Hq & Hqv).
  unfold isVisible, canvasWidth; cbn [canvas ratio set_instances textWidth].
  fold (canvasWidth c); rewrite Hq, Hw.
  replace (nlt (Fin q) (Fin cw)) with false; [apply andb_false_r|].
  symmetry; cbn [nlt]; destruct (q ?= cw) eqn:E; try reflexivity.
  apply Qlt_alt in E; rewrite Hqv in E.
  exfalso; apply (Qlt_not_le _ _ E).
  setoid_replace cw with (cw + 0) at 1 by ring.
  apply Qplus_le_r, Qmult_le_0_compat;
    [change 0 with (inject_Z 0); rewrite <- Zle_Qle; lia
    |apply Qlt_le_weak; exact Hpos].
Qed.

Lemma reverse_tiling_starts_out_of_view_witness :
  exists c',
    setupTextInstances 10
      (surfaceReady (scenarioPlatform 1000 200 false)
                    (scenarioOptions true 20 2)) = Done c'.
Proof.
  destruct (@reverse_tiling_starts_out_of_view
              (surfaceReady (scenarioPlatform 1000 200 false)
                            (scenarioOptions true 20 2))
              1000 220 eq_refl eq_refl eq_refl eq_refl
              ltac:(discriminate) 10%nat ltac:(vm_compute; lia))
    as (c' & H & _).
  exists c'; exact H.
Defined.

(** * Utilities *)

(** ** The caching loader *)

Section CachingLoaderFacts.
Variables J V St : Type.
Variable fn : list J -> St -> V * St.
Variable stringify : list J -> string.

Lemma cache_get_app (key : string) (l l' : list (string * V)) :
  cache_get key (l ++ l')
  = match cache_get key l with
    | Some v => Some v
    | None => cache_get key l'
    end.
Proof.
  unfold cache_get; induction l as [|kv l IH]; cbn [app find];
    [reflexivity|].
  destruct (String.eqb (fst kv) key); [reflexivity|exact IH].
Qed.

Lemma cache_get_delete_same (key : string) (l : list (string * V)) :
  cache_get key (cache_delete key l) = None.
Proof.
  unfold cache_get, cache_delete; induction l as [|kv l IH];
    cbn [filter find]; [reflexivity|].
  destruct (String.eqb (fst kv) key) eqn:E; cbn [negb]; [exact IH|].
  cbn [find]; rewrite E; exact IH.
Qed.

Lemma cache_get_delete_other (key key' : string) (l : list (string * V)) :
  key' <> key ->
  cache_get key' (cache_delete key l) = cache_get key' l.
Proof.
  intros Hne; unfold cache_get, cache_delete; induction l as [|kv l IH];
    cbn [filter find]; [reflexivity|].
  destruct (String.eqb (fst kv) key) eqn:E; cbn [negb].
  - apply String.eqb_eq in E.
    destruct (String.eqb (fst kv) key') eqn:E'; [|exact IH].
    apply String.eqb_eq in E'; congruence.
  - cbn [find]; destruct (String.eqb (fst kv) key'); [reflexivity|exact IH].
Qed.

(** X21: once [load] has been called with some arguments, every later
    [load] whose arguments serialize to the same JSON string returns the
    result of that first call without calling the wrapped function again
    and without changing the cache, also when the arguments themselves
    differ. *)
Theorem load_reuses_the_cached_result :
  forall (args args' : list J) (st : Loader V * St),
    stringify args' = stringify args ->
    load fn stringify args' (snd (load fn stringify args st))
    = (fst (load fn stringify args st), snd (load fn stringify args st)).
Proof.
  intros args args' [ld s] Hkey; unfold load; cbn [fst snd].
  destruct (cache_get (stringify args) (cache ld)) as [v|] eqn:E.
  - cbn [fst snd]; rewrite Hkey, E; reflexivity.
  - destruct (fn args s) as [v s']; cbn [fst snd cache].
    rewrite Hkey, cache_get_app, E; unfold cache_get; cbn [find fst snd].
    rewrite String.eqb_refl; reflexivity.
Qed.

(** X22: [invalidate] with a non-empty argument list forgets exactly the
    entry of that key: the key is no longer cached, so the next [load] calls
    the wrapped function again, and every other key keeps what it had; when
    the key was not cached the cache is unchanged and one warning is logged.
    [invalidate] with no arguments empties the whole cache, so the entry of
    a zero-argument call cannot be dropped alone. *)
Theorem invalidate_forgets_one_key_or_all :
  forall (args : list J) (ld : Loader V) (s : St),
    (args <> [] ->
     cache_get (stringify args) (cache (invalidate stringify args ld)) = None
     /\ (forall key', key' <> stringify args ->
                      cache_get key' (cache (invalidate stringify args ld))
                      = cache_get key' (cache ld))
     /\ fst (load fn stringify args (invalidate stringify args ld, s))
        = fst (fn args s)
     /\ snd (snd (load fn stringify args (invalidate stringify args ld, s)))
        = snd (fn args s)
     /\ (cache_get (stringify args) (cache ld) = None ->
         invalidate stringify args ld
         = mkLoader (cache ld) (S (warnings ld))))
    /\ cache (invalidate stringify [] ld) = []
    /\ warnings (invalidate stringify [] ld) = warnings ld.
Proof.
  intros args ld s; split; [|split; reflexivity].
  intros Hne.
  assert (Hgone : cache_get (stringify args)
                    (cache (invalidate stringify args ld)) = None).
  { unfold invalidate; destruct args as [|a args]; [congruence|].
    destruct (cache_get (stringify (a :: args)) (cache ld)) eqn:E;
      cbn [cache]; [apply cache_get_delete_same|exact E]. }
  split; [exact Hgone|]; split; [|split; [|split]].
  - intros key' Hk; unfold invalidate; destruct args as [|a args];
      [congruence|].
    destruct (cache_get (stringify (a :: args)) (cache ld));
      cbn [cache]; [apply cache_get_delete_other; exact Hk|reflexivity].
  - unfold load; cbn [fst snd]; rewrite Hgone.
    destruct (fn args s); reflexivity.
  - unfold load; cbn [fst snd]; rewrite Hgone.
    destruct (fn args s); reflexivity.
  - intros Habs; unfold invalidate; destruct args as [|a args];
      [congruence|].
    rewrite Habs; reflexivity.
Qed.
End CachingLoaderFacts.

(** ** Debounce *)

Section DebounceFacts.
Variable A : Type.

Lemma debounced_oneTimer (a : A) (d : Debounced A) :
  oneTimer d ->
  timers (debounced a d) = [(lastTimer (debounced a d), a)]
  /\ timeoutId (debounced a d) = Some (lastTimer (debounced a d))
  /\ invoked (debounced a d) = invoked d.
Proof.
  intros [Hnil | (b & Hid & Ht)]; unfold debounced;
    cbn [timers timeoutId lastTimer invoked].
  - rewrite Hnil; destruct (timeoutId d); cbn; auto.
  - rewrite Hid, Ht; cbn [clearTimeout filter fst].
    rewrite Nat.eqb_refl; cbn; auto.
Qed.

Lemma expire_oneTimer (id : nat) (d : Debounced A) :
  oneTimer d -> oneTimer (expire id d).
Proof.
  intros [Hnil | (b & Hid & Ht)]; unfold expire.
  - rewrite Hnil; cbn; left; exact Hnil.
  - rewrite Ht; cbn [find fst].
    destruct (Nat.eqb_spec (lastTimer d) id) as [<- | Hne].
    + left; cbn; rewrite Nat.eqb_refl; reflexivity.
    + right; exists b; auto.
Qed.

Lemma runDebounce_oneTimer (events : list (DebounceEvent A))
    (d : Debounced A) :
  oneTimer d -> oneTimer (runDebounce events d).
Proof.
  unfold runDebounce; revert d.
  induction events as [|ev events IH]; intros d Hd; cbn [fold_left];
    [exact Hd|].
  apply IH; destruct ev as [a | id]; cbn [debounceStep].
  - right; exists a.
    destruct (@debounced_oneTimer a d Hd) as (Ht & Hid & _); auto.
  - apply expire_oneTimer; exact Hd.
Qed.
End DebounceFacts.

Lemma load_reuses_the_cached_result_witness :
  load (fun (args : list nat) (calls : nat) => (List.length args, S calls))
       (fun _ => "[null]"%string) [7%nat]
       (snd (load (fun (args : list nat) (calls : nat) =>
                     (List.length args, S calls))
                  (fun _ => "[null]"%string) [3; 4]%nat
                  (mkLoader [] 0, 0%nat)))
  = (2%nat, (mkLoader [("[null]"%string, 2%nat)] 0, 1%nat)).
Proof.
  exact (@load_reuses_the_cached_result nat nat nat
           (fun args calls => (List.length args, S calls))
           (fun _ => "[null]"%string) [3; 4]%nat [7%nat]
           (mkLoader [] 0, 0%nat) eq_refl).
Defined.

Lemma invalidate_forgets_one_key_or_all_witness :
  cache_get "[null]"
    (cache (invalidate (fun _ : list nat => "[null]"%string) [7%nat]
              (mkLoader [("[null]"%string, 2%nat)] 0)))
  = None.
Proof.
  exact (proj1 (proj1 (@invalidate_forgets_one_key_or_all nat nat nat
                         (fun args calls => (List.length args, S calls))
                         (fun _ => "[null]"%string) [7%nat]
                         (mkLoader [("[null]"%string, 2%nat)] 0) 0%nat)
                      ltac:(discriminate))).
Defined.

Lemma calls_keep_oneTimer (A : Type) (burst : list A) :
  forall d : Debounced A,
    oneTimer d ->
    oneTimer (runDebounce (map (@Called A) burst) d)
    /\ invoked (runDebounce (map (@Called A) burst) d) = invoked d.
Proof.
  unfold runDebounce; induction burst as [|b burst IH]; intros d Hd;
    cbn [map fold_left debounceStep]; [auto|].
  destruct (@debounced_oneTimer A b d Hd) as (Ht & Hid & Hinv).
  destruct (IH (debounced b d)) as [Ho Hi].
  - right; exists b; auto.
  - split; [exact Ho|rewrite Hi; exact Hinv].
Qed.

(** X23: after any history of calls and timer expiries, a burst of calls
    of the debounced function with no expiry in between leaves exactly one
    timer running, carrying the arguments of the last call, and has not
    called the wrapped function; when that timer expires the wrapped
    function is called once, with the arguments of the last call, and no
    timer is left. *)
Theorem debounce_runs_once_with_the_last_arguments :
  forall (A : Type) (history : list (DebounceEvent A)) (burst : list A)
         (a : A),
    let d := runDebounce history (newDebounced A) in
    let d' := runDebounce (map (@Called A) (burst ++ [a])) d in
    timers d' = [(lastTimer d', a)]
    /\ invoked d' = invoked d
    /\ invoked (expire (lastTimer d') d') = invoked d ++ [a]
    /\ timers (expire (lastTimer d') d') = [].
Proof.
  intros A history burst a d d'.
  assert (Hd : oneTimer d)
    by (apply runDebounce_oneTimer; left; reflexivity).
  destruct (@calls_keep_oneTimer A burst d Hd) as [Ho Hi].
  assert (Hd' : d' = debounced a (runDebounce (map (@Called A) burst) d)).
  { unfold d', runDebounce; rewrite map_app, fold_left_app; reflexivity. }
  destruct (@debounced_oneTimer A a _ Ho) as (Ht & Hid & Hinv).
  rewrite <- Hd' in Ht, Hid, Hinv.
  split; [exact Ht|]; split; [rewrite Hinv; exact Hi|].
  unfold expire; rewrite Ht; cbn [find fst]; rewrite Nat.eqb_refl.
  cbn [invoked timers clearTimeout filter fst snd].
  rewrite Nat.eqb_refl, Hinv, Hi; auto.
Qed.

(** * The static constructor and the custom element *)

(** X24: [MarqueeController.init] never raises: when the canvas yields no
    2D context it logs the failure and still returns the controller, with
    the merged configuration, not initialized and with no frame scheduled;
    every later resize of that controller is a no-op, so it does not
    recover by itself. *)
Theorem init_swallows_a_missing_context :
  forall (P : Platform) (fuel : nat) (cv : Canvas) (opts : PartialOptions)
         (win : Window),
    getContext_succeeds P = false ->
    exists w,
      init P fuel cv opts win = Done w
      /\ window w = win
      /\ options (marquee w) = spread getDefaultOptions opts
      /\ isInitialized (marquee w) = false
      /\ animationId (marquee w) = None
      /\ instances (marquee w) = []
      /\ forall P' fuel', handleResize P' fuel' w = Done w.
Proof.
  intros P fuel cv opts win H.
  destruct (@setupCanvas_without_context P (constructor cv opts) H)
    as (c' & Hs & _ & Hin & Ho & Ha & Hi & _).
  unfold init, initialize; cbn [marquee window]; rewrite Hs.
  eexists; split; [reflexivity|]; cbn [marquee window].
  rewrite Ho, Hi, Ha, Hin; repeat split.
  intros P' fuel'; unfold handleResize; cbn [marquee]; rewrite Hi.
  reflexivity.
Qed.

Lemma init_swallows_a_missing_context_witness :
  exists w,
    init contextlessPlatform 10 blankCanvas emptyPartial (mkWindow 0 [])
    = Done w
    /\ window w = mkWindow 0 [].
Proof.
  destruct (@init_swallows_a_missing_context contextlessPlatform 10%nat
              blankCanvas emptyPartial (mkWindow 0 []) eq_refl)
    as (w & H & Hw & _).
  exists w; split; [exact H|exact Hw].
Defined.

Lemma init_options (P : Platform) (fuel : nat) (cv : Canvas)
    (opts : PartialOptions) (win : Window) (w : World) :
  init P fuel cv opts win = Done w ->
  options (marquee w) = spread getDefaultOptions opts.
Proof.
  unfold init, initialize; cbn [marquee window].
  pose proof (setupCanvas_options P (constructor cv opts)) as Ho.
  destruct (setupCanvas P (constructor cv opts)) as [c1|e c1|];
    cbn [stateOf] in Ho; try discriminate.
  - destruct (setupTextInstances fuel c1) as [c2|e c2|] eqn:H2;
      try discriminate; intros H; injection H as <-.
    + destruct (@setupTextInstances_state _ _ _ (or_introl H2)) as (l & ->).
      unfold startAnimation; cbn [marquee window animationId set_instances].
      destruct (negb (truthy (animationId c1))); cbn; exact Ho.
    + destruct (@setupTextInstances_state _ _ _
                  (or_intror (ex_intro _ e H2))) as (l & ->).
      cbn; exact Ho.
  - intros H; injection H as <-; exact Ho.
Qed.

Lemma observed_existsb (name : string) :
  In name observedAttributes ->
  existsb (String.eqb name) observedAttributes = true.
Proof.
  intros H; apply existsb_exists; exists name; split;
    [exact H|apply String.eqb_refl].
Qed.

Lemma changed_values (a b : option string) :
  a <> b ->
  match a, b with
  | Some s, Some t => String.eqb s t
  | None, None => true
  | _, _ => false
  end = false.
Proof.
  destruct a as [s|], b as [t|]; intros H; try reflexivity;
    [|congruence].
  apply String.eqb_neq; congruence.
Qed.

(** X25: for an element without a [color] attribute, the controller it
    creates gets the text colour [#337baa], together with
    [parseInt(padding-x || '0')] as horizontal padding (not the engine's own
    default) and the engine's default background; after the first change of
    any observed attribute the text colour is [#f3bb0b]: the two option
    builders of the element use different fallback colours. *)
Theorem element_fallback_colour_changes_on_update :
  forall (parseInt : string -> num) (toUpperCase : string -> string)
         (P : Platform) (fuel : nat) (el : MarqueeCanvas),
    el_attributes el "color"%string = None ->
    (forall cv el',
        el_canvas el = Some cv ->
        initializeController parseInt toUpperCase P fuel el = Done el' ->
        exists c,
          el_controller el' = Some c
          /\ textColor (options c) = "#337baa"%string
          /\ paddingX (options c)
             = parseInt (orDefault (el_attributes el "padding-x"%string) "0")
          /\ backgroundColor (options c) = Some "transparent"%string)
    /\ (forall name oldValue newValue c el',
           el_controller el = Some c ->
           In name observedAttributes ->
           oldValue <> newValue ->
           attributeChangedCallback parseInt toUpperCase P fuel name
             oldValue newValue el = Done el' ->
           exists c',
             el_controller el' = Some c'
             /\ textColor (options c') = "#f3bb0b"%string
             /\ paddingX (options c')
                = parseInt (orDefault (el_attributes el "padding-x"%string)
                                      "0")).
Proof.
  intros parseInt toUpperCase P fuel el Hcol; split.
  - intros cv el' Hcv; unfold initializeController; rewrite Hcv.
    destruct (init P fuel cv _ (el_window el)) as [w|e w|] eqn:Hinit;
      try discriminate.
    intros H; injection H as <-; cbn [el_controller].
    exists (marquee w); split; [reflexivity|].
    rewrite (@init_options _ _ _ _ _ _ Hinit).
    unfold controllerOptions; cbn; rewrite Hcol; cbn; auto.
  - intros name oldValue newValue c el' Hc Hin Hne.
    unfold attributeChangedCallback; rewrite Hc, (changed_values Hne).
    rewrite (observed_existsb Hin); unfold updateController; rewrite Hc.
    destruct (update P fuel _ (mkWorld (el_window el) c)) as [w|e w|] eqn:Hu;
      try discriminate.
    intros H; injection H as <-; cbn [el_controller].
    exists (marquee w); split; [reflexivity|].
    destruct (@update_options _ _ _ _ _ Hu) as (Ho & _).
    rewrite Ho; unfold controllerOptions; cbn; rewrite Hcol; cbn; auto.
Qed.

(** X26: [attributeChangedCallback] leaves the element and its controller
    untouched when the value did not change, when there is no controller,
    or when the attribute is not one of the seven observed ones; in
    particular a change of [uppercase] alone never reaches the controller. *)
Theorem attribute_change_is_ignored :
  forall (parseInt : string -> num) (toUpperCase : string -> string)
         (P : Platform) (fuel : nat) (name : string)
         (oldValue newValue : option string) (el : MarqueeCanvas),
    oldValue = newValue \/ el_controller el = None
    \/ ~ In name observedAttributes ->
    attributeChangedCallback parseInt toUpperCase P fuel name
      oldValue newValue el = Done el.
Proof.
  intros parseInt toUpperCase P fuel name oldValue newValue el H.
  unfold attributeChangedCallback.
  destruct (el_controller el) as [c|]; [|reflexivity].
  destruct H as [-> | [H | H]]; [| discriminate |].
  - destruct newValue as [s|]; [rewrite String.eqb_refl|]; reflexivity.
  - match goal with |- (if ?b then _ else _) = _ => destruct b end;
      [reflexivity|].
    destruct (existsb (String.eqb name) observedAttributes) eqn:E;
      [|reflexivity].
    apply existsb_exists in E; destruct E as (n & Hn & Heq).
    apply String.eqb_eq in Heq; subst n; contradiction.
Qed.

(** X27: [cleanup] destroys the controller and forgets controller and
    canvas: the frame the controller held is no longer pending, a second
    [cleanup] changes nothing, and attribute changes that arrive afterwards
    are ignored. *)
Theorem cleanup_releases_the_element :
  forall (parseInt : string -> num) (toUpperCase : string -> string)
         (P : Platform) (fuel : nat) (el : MarqueeCanvas),
    cleanup (cleanup el) = cleanup el
    /\ el_controller (cleanup el) = None
    /\ el_canvas (cleanup el) = None
    /\ (forall c h, el_controller el = Some c ->
                    animationId c = Some (S h) ->
                    ~ In (S h) (pending (el_window (cleanup el))))
    /\ (forall k, In k (pending (el_window (cleanup el))) ->
                  In k (pending (el_window el)))
    /\ forall name oldValue newValue,
         attributeChangedCallback parseInt toUpperCase P fuel name
           oldValue newValue (cleanup el) = Done (cleanup el).
Proof.
  intros parseInt toUpperCase P fuel el.
  split; [unfold cleanup; destruct (el_controller el); reflexivity|].
  split; [unfold cleanup; destruct (el_controller el); reflexivity|].
  split; [unfold cleanup; destruct (el_controller el); reflexivity|].
  split; [|split].
  - intros c h Hc Hid; unfold cleanup; rewrite Hc; cbn [el_window].
    unfold destroy, stopAnimation; cbn [marquee window]; rewrite Hid.
    cbn [window cancelAnimationFrame pending].
    intros Hin; apply filter_In in Hin; destruct Hin as [_ Hne].
    rewrite Nat.eqb_refl in Hne; discriminate.
  - intros k; unfold cleanup; destruct (el_controller el) as [c|];
      cbn [el_window]; [|auto].
    unfold destroy, stopAnimation; cbn [marquee window].
    destruct (animationId c) as [[|h]|]; cbn; auto.
    apply filter_subset.
  - intros name oldValue newValue; unfold attributeChangedCallback.
    replace (el_controller (cleanup el)) with (@None MarqueeController)
      by (unfold cleanup; destruct (el_controller el); reflexivity).
    reflexivity.
Qed.

Lemma element_fallback_colour_changes_on_update_witness :
  exists c,
    el_controller
      (stateOf (initializeController (fun _ => of_Z 0) (fun s => s)
                  (scenarioPlatform 1000 200 false) 10 bareElement)
               bareElement)
    = Some c
    /\ textColor (options c) = "#337baa"%string.
Proof.
  destruct (proj1 (@element_fallback_colour_changes_on_update
                     (fun _ => of_Z 0) (fun s => s)
                     (scenarioPlatform 1000 200 false) 10%nat bareElement
                     eq_refl)
                  blankCanvas
                  (stateOf (initializeController (fun _ => of_Z 0)
                              (fun s => s)
                              (scenarioPlatform 1000 200 false) 10 bareElement)
                           bareElement)
                  eq_refl ltac:(vm_compute; reflexivity))
    as (c & Hc & Ht & _).
  exists c; split; [exact Hc|exact Ht].
Defined.

Lemma attribute_change_is_ignored_witness :
  attributeChangedCallback (fun _ => of_Z 0) (fun s => s)
    (scenarioPlatform 1000 200 false) 10 "uppercase" None (Some ""%string)
    bareElement
  = Done bareElement.
Proof.
  apply (@attribute_change_is_ignored (fun _ => of_Z 0) (fun s => s)
           (scenarioPlatform 1000 200 false) 10%nat "uppercase"%string
           None (Some ""%string) bareElement).
  right; right; intros H; cbn in H.
  repeat (destruct H as [H | H]; [discriminate H|]); exact H.
Defined.
